(** * GCSF TypeScript reference runner: flattener, evaluator and comparator

    A shallow embedding of [runners/ts/runner.ts] (class [GCSFRunner]) and the
    properties of its three parts: [flattenGroups], [runTest] / [run], and
    [compare] with [deepEqual], [approxEqual], [approxEqualWithAbsTolerance]
    and [hasSpecialValues].

    JavaScript numbers are IEEE 754 binary64 values: they are modelled by
    Rocq's primitive floats, so that NaN, the infinities, signed zeros and
    rounding are those of the source. *)

From Stdlib Require Import List String Ascii Bool Arith NArith ZArith Lia Floats.
From Stdlib Require Import Permutation DecimalString DecimalNat.
Import ListNotations.

Local Open Scope list_scope.
Local Open Scope string_scope.

#[local] Set Warnings "-register-all".

(* ================================================================= *)
(** ** JavaScript values *)

(** The values that flow through the runner: what [JSON.parse] produces
    (null, booleans, numbers, strings, arrays, plain objects), and
    [undefined], which an operation may return and which a missing property
    reads as.  An object is the list of its own enumerable properties in
    enumeration order; a well-formed object has pairwise distinct keys. *)
Inductive Value : Type :=
| VUndefined
| VNull
| VBool (b : bool)
| VNum (n : float)
| VStr (s : string)
| VArr (elements : list Value)
| VObj (properties : list (string * Value)).

(** The results of the [typeof] operator on these values. *)
Inductive JsType : Type := TUndefined | TObject | TBoolean | TNumber | TString.

Definition JsType_eqb (s t : JsType) : bool :=
  match s, t with
  | TUndefined, TUndefined | TObject, TObject | TBoolean, TBoolean
  | TNumber, TNumber | TString, TString => true
  | _, _ => false
  end.

Definition typeof (v : Value) : JsType :=
  match v with
  | VUndefined => TUndefined
  | VNull => TObject
  | VBool _ => TBoolean
  | VNum _ => TNumber
  | VStr _ => TString
  | VArr _ => TObject
  | VObj _ => TObject
  end.

Definition isArray (v : Value) : bool :=
  match v with VArr _ => true | _ => false end.

(** [v == null]: true of [null] and [undefined] only. *)
Definition is_nullish (v : Value) : bool :=
  match v with VUndefined | VNull => true | _ => false end.

(** [a === b].  Primitives are compared by value, numbers with the IEEE
    equality (NaN differs from itself, [+0] equals [-0]).  Arrays and objects
    are compared by identity: the two sides of every comparison in the runner
    are an operation's output and a value parsed from the specification
    document, which are never the same allocation, so identity is [false]. *)
Definition strict_equals (a b : Value) : bool :=
  match a, b with
  | VUndefined, VUndefined => true
  | VNull, VNull => true
  | VBool x, VBool y => Bool.eqb x y
  | VNum x, VNum y => PrimFloat.eqb x y
  | VStr x, VStr y => String.eqb x y
  | _, _ => false
  end.

(** The property key of array index [i] (its decimal numeral). *)
Definition index_key (i : nat) : string :=
  NilEmpty.string_of_uint (Nat.to_uint i).

Fixpoint assoc {A : Type} (key : string) (l : list (string * A)) : option A :=
  match l with
  | [] => None
  | (k, v) :: l' => if String.eqb k key then Some v else assoc key l'
  end.

(** The element of an array stored under the string key [key]. *)
Fixpoint element_at_key (i : nat) (key : string) (l : list Value) : option Value :=
  match l with
  | [] => None
  | v :: l' =>
      if String.eqb (index_key i) key then Some v else element_at_key (S i) key l'
  end.

(** [a[key]] for a string key, on arrays and plain objects; a key that is not
    an own property reads as [undefined].  (The runner only reads keys taken
    from [Object.keys].) *)
Definition get (a : Value) (key : string) : Value :=
  match a with
  | VObj ps => match assoc key ps with Some v => v | None => VUndefined end
  | VArr l => match element_at_key 0 key l with Some v => v | None => VUndefined end
  | _ => VUndefined
  end.

(** [b[idx]] for a numeric index. *)
Definition get_index (b : Value) (idx : nat) : Value :=
  match b with
  | VArr l => nth idx l VUndefined
  | _ => get b (index_key idx)
  end.

(** [a.length] of an array. *)
Definition array_length (a : Value) : nat :=
  match a with VArr l => List.length l | _ => 0 end.

Fixpoint index_keys (i : nat) (l : list Value) : list string :=
  match l with
  | [] => []
  | _ :: l' => index_key i :: index_keys (S i) l'
  end.

(** [Object.keys(a)]: the own enumerable string keys, in enumeration order. *)
Definition Object_keys (a : Value) : list string :=
  match a with
  | VObj ps => map fst ps
  | VArr l => index_keys 0 l
  | _ => []
  end.

(** [Object.values(a)]. *)
Definition Object_values (a : Value) : list Value :=
  match a with
  | VObj ps => map snd ps
  | VArr l => l
  | _ => []
  end.

(** [keys.sort()] with the default comparator: ascending order of the
    strings.  The result of sorting with a total order does not depend on the
    algorithm; insertion sort is used here.  The comparator only ever tests
    two sorted key arrays for equality, which does not depend on which total
    order sorts them: the order of the characters of Rocq strings is used. *)
Fixpoint insert_sorted (k : string) (l : list string) : list string :=
  match l with
  | [] => [k]
  | x :: l' => if String.leb k x then k :: l else x :: insert_sorted k l'
  end.

Fixpoint sort (l : list string) : list string :=
  match l with
  | [] => []
  | k :: l' => insert_sorted k (sort l')
  end.

(** [l.every((x, idx) => f(x, idx))]. *)
Fixpoint every_from {A : Type} (f : A -> nat -> bool) (idx : nat) (l : list A) : bool :=
  match l with
  | [] => true
  | x :: l' => if f x idx then every_from f (S idx) l' else false
  end.

Definition every_idx {A : Type} (f : A -> nat -> bool) (l : list A) : bool :=
  every_from f 0 l.

(** [l.every((x) => f(x))]. *)
Definition every {A : Type} (f : A -> bool) (l : list A) : bool :=
  every_idx (fun x _ => f x) l.

(** [keysA.every((k, i) => k === keysB[i])]. *)
Definition same_keys_at (keysB : list string) (k : string) (i : nat) : bool :=
  match nth_error keysB i with
  | Some k' => String.eqb k k'
  | None => false
  end.

(** Nesting depth of a value: the recursion of the comparator descends by one
    level of containers at each call. *)
Fixpoint depth (v : Value) : nat :=
  match v with
  | VArr l => S (fold_right (fun x m => Nat.max (depth x) m) 0 l)
  | VObj ps => S (fold_right (fun p m => Nat.max (depth (snd p)) m) 0 ps)
  | _ => 0
  end.

(** Recursion on the depth of the first argument.  A recursive function of
    the source is given by its body [F], where the recursive calls go through
    the first argument of [F]; [rec_on_depth F] ties the knot by iterating
    [F] once more than the depth of the argument.  When [F] only calls itself
    on values strictly less deep than its argument ([F_descends] below), the
    bottom of the iteration is never reached and [rec_on_depth F] satisfies
    the recursive equation of the source ([rec_on_depth_unfold]); this is
    proved for each function of the comparator ([deepEqual_unfold] and the
    like). *)
Section DepthRecursion.
Context {X : Type}.
Variable F : (Value -> X -> bool) -> Value -> X -> bool.

Fixpoint iterate (n : nat) : Value -> X -> bool :=
  match n with
  | 0 => fun _ _ => false
  | S n' => F (iterate n')
  end.

Definition rec_on_depth (a : Value) (x : X) : bool :=
  iterate (S (depth a)) a x.
End DepthRecursion.

(* ================================================================= *)
(** ** The comparator: deep equality *)

(** The body of [deepEqual(a, b)]; [self] stands for [this.deepEqual]. *)
Definition deepEqual_body (self : Value -> Value -> bool) (a b : Value) : bool :=
  if strict_equals a b then true
  else if is_nullish a || is_nullish b then false
  else if negb (JsType_eqb (typeof a) (typeof b)) then false
  else if isArray a && isArray b then
    if negb (Nat.eqb (array_length a) (array_length b)) then false
    else every_idx (fun val idx => self val (get_index b idx)) (Object_values a)
  else if JsType_eqb (typeof a) TObject && JsType_eqb (typeof b) TObject then
    let keysA := sort (Object_keys a) in
    let keysB := sort (Object_keys b) in
    if negb (Nat.eqb (List.length keysA) (List.length keysB)) then false
    else if negb (every_idx (same_keys_at keysB) keysA) then false
    else every (fun key => self (get a key) (get b key)) keysA
  else false.

Definition deepEqual : Value -> Value -> bool := rec_on_depth deepEqual_body.

(* ================================================================= *)
(** ** The comparator: tolerances and approximate equality *)

(** [number | ToleranceObject].  The per-field overrides are read with
    [fields?.[key]] and handed back to [approxEqual], which accepts a number
    or a nested object there. *)
Inductive Tolerance : Type :=
| TolNumber (t : float)
| TolObject (abs rel : option float) (fields : option (list (string * Tolerance))).

Definition is_null (v : Value) : bool :=
  match v with VNull => true | _ => false end.

(** [typeof a === "object" && typeof b === "object" && a !== null && b !== null] *)
Definition both_objects (a b : Value) : bool :=
  JsType_eqb (typeof a) TObject && JsType_eqb (typeof b) TObject
  && negb (is_null a) && negb (is_null b).

(** [keysA.length !== keysB.length || !keysA.every((k, i) => k === keysB[i])] *)
Definition keys_differ (keysA keysB : list string) : bool :=
  negb (Nat.eqb (List.length keysA) (List.length keysB)) || negb (every_idx (same_keys_at keysB) keysA).

(** The body of [approxEqualWithAbsTolerance(a, b, tolerance)]. *)
Definition approxEqualWithAbsTolerance_body
    (self : Value -> Value -> float -> bool) (a b : Value) (tolerance : float) : bool :=
  match a, b with
  | VNum x, VNum y => PrimFloat.leb (PrimFloat.abs (x - y)) tolerance
  | _, _ =>
      if both_objects a b then
        let keysA := sort (Object_keys a) in
        let keysB := sort (Object_keys b) in
        if keys_differ keysA keysB then false
        else every (fun key => self (get a key) (get b key) tolerance) keysA
      else deepEqual a b
  end.

Definition approxEqualWithAbsTolerance (a b : Value) (tolerance : float) : bool :=
  rec_on_depth
    (fun self a (bt : Value * float) =>
        approxEqualWithAbsTolerance_body (fun a b t => self a (b, t)) a (fst bt) (snd bt))
    a (b, tolerance).

(** [x > y] on numbers. *)
Definition gtb (x y : float) : bool := PrimFloat.ltb y x.

(** The names of the members of [Object.prototype], which every plain object
    inherits. *)
Definition Object_prototype_members : list string :=
  ["constructor"; "hasOwnProperty"; "isPrototypeOf"; "propertyIsEnumerable";
   "toLocaleString"; "toString"; "valueOf"; "__proto__";
   "__defineGetter__"; "__defineSetter__"; "__lookupGetter__"; "__lookupSetter__"].

(** What [approxEqual] makes of a member of [Object.prototype] taken as
    tolerance: it is not a number, and its properties [abs], [rel] and
    [fields] are [undefined]. *)
Definition inherited_member_tolerance : Tolerance := TolObject None None None.

(** [fields?.[key] ?? tolerance].  The read [fields[key]] goes through the
    prototype chain: under a key that [fields] does not have itself and that
    names a member of [Object.prototype], it yields that member. *)
Definition field_tolerance (fields : option (list (string * Tolerance)))
    (key : string) (tolerance : Tolerance) : Tolerance :=
  match fields with
  | Some fs =>
      match assoc key fs with
      | Some t => t
      | None =>
          if existsb (String.eqb key) Object_prototype_members
          then inherited_member_tolerance
          else tolerance
      end
  | None => tolerance
  end.

(** The body of [approxEqual(a, b, tolerance)]. *)
Definition approxEqual_body
    (self : Value -> Value -> Tolerance -> bool) (a b : Value) (tolerance : Tolerance) : bool :=
  match tolerance with
  | TolNumber t => approxEqualWithAbsTolerance a b t
  | TolObject abs rel fields =>
      match a, b with
      | VNum x, VNum y =>
          if match abs with
             | Some abs => gtb (PrimFloat.abs (x - y)) abs
             | None => false
             end then false
          else if match rel with
                  | Some rel => gtb (PrimFloat.abs (x - y)) (PrimFloat.abs y * rel)
                  | None => false
                  end then false
          else true
      | _, _ =>
          if both_objects a b then
            let keysA := sort (Object_keys a) in
            let keysB := sort (Object_keys b) in
            if keys_differ keysA keysB then false
            else
              every
                (fun key =>
                   let fieldTolerance := field_tolerance fields key tolerance in
                   match get a key, get b key with
                   | VNum _, VNum _ => self (get a key) (get b key) fieldTolerance
                   | _, _ => deepEqual (get a key) (get b key)
                   end)
                keysA
          else deepEqual a b
      end
  end.

Definition approxEqual (a b : Value) (tolerance : Tolerance) : bool :=
  rec_on_depth
    (fun self a (bt : Value * Tolerance) =>
       approxEqual_body (fun a b t => self a (b, t)) a (fst bt) (snd bt))
    a (b, tolerance).

(* ================================================================= *)
(** ** Special values *)

(** [l.some((v) => f(v))] *)
Definition some {A : Type} (f : A -> bool) (l : list A) : bool := existsb f l.

(** The body of [hasSpecialValues(value)].  Arrays have [typeof] object, so
    they are handled by the second test and the third is never reached. *)
Definition hasSpecialValues_body (self : Value -> bool) (value : Value) : bool :=
  match value with
  | VNum n => negb (PrimFloat.is_finite n)
  | _ =>
      if JsType_eqb (typeof value) TObject && negb (is_null value) then
        some (fun v => self v) (Object_values value)
      else if isArray value then
        some (fun v => self v) (Object_values value)
      else false
  end.

Definition hasSpecialValues (value : Value) : bool :=
  rec_on_depth (fun self value (_ : unit) => hasSpecialValues_body (fun v => self v tt) value)
    value tt.

(* ================================================================= *)
(** ** The specification document *)

Inductive CompareMode : Type := Strict | Deep | Approx.

Definition CompareMode_eqb (m m' : CompareMode) : bool :=
  match m, m' with
  | Strict, Strict | Deep, Deep | Approx, Approx => true
  | _, _ => false
  end.

(** [interface Defaults] *)
Record Defaults : Type := mkDefaults {
  defaults_compare : option CompareMode;
  defaults_tolerance : option Tolerance
}.

(** [interface Test]; an optional field that is absent is [None]. *)
Record Test : Type := mkTest {
  id : string;
  kind : option string;
  op : string;
  input : Value;
  expected : Value;
  test_description : option string;
  test_compare : option CompareMode;
  test_tolerance : option Tolerance;
  xfail : option bool;
  skip : option string;
  meta : option Value
}.

(** [interface Group] *)
Inductive Group : Type :=
| mkGroup (group : string) (description : option string) (defaults : option Defaults)
          (groups : option (list Group)) (tests : option (list Test)).

Definition group_name (g : Group) : string :=
  match g with mkGroup n _ _ _ _ => n end.
Definition group_defaults (g : Group) : option Defaults :=
  match g with mkGroup _ _ d _ _ => d end.
Definition group_groups (g : Group) : option (list Group) :=
  match g with mkGroup _ _ _ gs _ => gs end.
Definition group_tests (g : Group) : option (list Test) :=
  match g with mkGroup _ _ _ _ ts => ts end.

(** [interface Spec] *)
Record Spec : Type := mkSpec {
  spec_name : string;
  version : string;
  schema : option string;
  capabilities : option (list string);
  spec_defaults : option Defaults;
  spec_groups : list Group
}.

(** [interface FlatTest extends Test]: the fields of the test (the spread
    [...test]) and the three resolved ones. *)
Record FlatTest : Type := mkFlatTest {
  test : Test;
  groupPath : list string;
  resolvedCompare : CompareMode;
  resolvedTolerance : option Tolerance
}.

(* ================================================================= *)
(** ** The flattener *)

(** [x || y] and [x ?? y] on optional fields whose present values are
    truthy (compare modes) or non-null (tolerances). *)
Definition or_else {A : Type} (x y : option A) : option A :=
  match x with Some _ => x | None => y end.

(** [{ ...parentDefaults, ...defaults }]: the own fields of the second
    object override those of the first; spreading [undefined] adds nothing. *)
Definition spread_defaults (parentDefaults defaults : option Defaults) : Defaults :=
  let inherited :=
    match parentDefaults with Some d => d | None => mkDefaults None None end in
  match defaults with
  | Some d =>
      mkDefaults (or_else (defaults_compare d) (defaults_compare inherited))
                 (or_else (defaults_tolerance d) (defaults_tolerance inherited))
  | None => inherited
  end.

(** The object pushed for one test of a group. *)
Definition resolve_test (currentPath : list string) (mergedDefaults : Defaults)
    (t : Test) : FlatTest :=
  let resolvedCompare :=
    match or_else (test_compare t) (defaults_compare mergedDefaults) with
    | Some m => m
    | None => Strict
    end in
  let resolvedTolerance := or_else (test_tolerance t) (defaults_tolerance mergedDefaults) in
  mkFlatTest t currentPath resolvedCompare resolvedTolerance.

(** One iteration of the loop [for (const group of groups)] of
    [flattenGroups]: from the array [flatTests] built so far to the array
    after the iteration.  The inner [flatten_all] is the recursive call
    [this.flattenGroups(group.groups, currentPath, mergedDefaults)], which
    starts from an empty array of its own. *)
Fixpoint flatten_group (groupPath : list string) (parentDefaults : option Defaults)
    (flatTests : list FlatTest) (g : Group) {struct g} : list FlatTest :=
  match g with
  | mkGroup name _ defaults groups tests =>
      let currentPath := (groupPath ++ [name])%list in
      let mergedDefaults := spread_defaults parentDefaults defaults in
      let flatTests :=
        match groups with
        | Some gs =>
            app flatTests
            ((fix flatten_all (gs : list Group) (acc : list FlatTest) : list FlatTest :=
               match gs with
               | [] => acc
               | g' :: gs' =>
                   flatten_all gs' (flatten_group currentPath (Some mergedDefaults) acc g')
               end) gs [])
        | None => flatTests
        end in
      match tests with
      | Some ts =>
          fold_left
            (fun flatTests t =>
               (flatTests ++ [resolve_test currentPath mergedDefaults t])%list)
            ts flatTests
      | None => flatTests
      end
  end.

(** [flattenGroups(groups, groupPath, parentDefaults)] *)
Definition flattenGroups (groups : list Group) (groupPath : list string)
    (parentDefaults : option Defaults) : list FlatTest :=
  fold_left (flatten_group groupPath parentDefaults) groups [].

(** The child groups and the direct tests of a group, none when the field
    is absent. *)
Definition subgroups (g : Group) : list Group :=
  match group_groups g with Some gs => gs | None => [] end.

Definition direct_tests (g : Group) : list Test :=
  match group_tests g with Some ts => ts | None => [] end.

(** *** The inheritance rule, as the specification words it

    The test cases of a tree in document order, descendant groups first, each
    with the chain of its ancestor groups from the outermost to its immediate
    parent. *)
Fixpoint group_cases (g : Group) : list (list Group * Test) :=
  match g with
  | mkGroup _ _ _ groups tests =>
      (map (fun c => (g :: fst c, snd c))
           (match groups with Some gs => flat_map group_cases gs | None => [] end)
       ++ map (fun t => ([g], t)) (match tests with Some ts => ts | None => [] end))%list
  end.

Definition cases (groups : list Group) : list (list Group * Test) :=
  flat_map group_cases groups.

(** The first value that is present. *)
Fixpoint first_present {A : Type} (l : list (option A)) : option A :=
  match l with
  | [] => None
  | Some a :: _ => Some a
  | None :: l' => first_present l'
  end.

Definition compare_of (d : option Defaults) : option CompareMode :=
  match d with Some d => defaults_compare d | None => None end.

Definition tolerance_of (d : option Defaults) : option Tolerance :=
  match d with Some d => defaults_tolerance d | None => None end.

(** The test's own value, else the nearest ancestor group's, else the root's;
    [chain] runs from the outermost ancestor to the immediate parent. *)
Definition by_precedence {A : Type} (own : option A) (of_defaults : option Defaults -> option A)
    (chain : list Group) (root : option Defaults) : option A :=
  first_present (own :: map (fun g => of_defaults (group_defaults g)) (rev chain)
                     ++ [of_defaults root])%list.

Definition effective_compare (root : option Defaults) (chain : list Group) (t : Test)
    : CompareMode :=
  match by_precedence (test_compare t) compare_of chain root with
  | Some m => m
  | None => Strict
  end.

Definition effective_tolerance (root : option Defaults) (chain : list Group) (t : Test)
    : option Tolerance :=
  by_precedence (test_tolerance t) tolerance_of chain root.

(** [ancestry groups chain t]: [t] is a direct test of the last group of
    [chain], and [chain] descends from one of [groups] through child groups. *)
Inductive ancestry : list Group -> list Group -> Test -> Prop :=
| ancestry_parent : forall groups g t,
    In g groups -> In t (direct_tests g) -> ancestry groups [g] t
| ancestry_deeper : forall groups g chain t,
    In g groups -> ancestry (subgroups g) chain t -> ancestry groups (g :: chain) t.

(** The resolved case [ft] has the effective compare mode and tolerance of
    the test [snd c] under the ancestor chain [fst c]. *)
Definition inherits (root : option Defaults) (ft : FlatTest) (c : list Group * Test) : Prop :=
  test ft = snd c
  /\ resolvedCompare ft = effective_compare root (fst c) (snd c)
  /\ resolvedTolerance ft = effective_tolerance root (fst c) (snd c).

(** The resolved case of a test under the chain of its ancestors. *)
Definition resolved_case (path : list string) (root : option Defaults)
    (c : list Group * Test) : FlatTest :=
  mkFlatTest (snd c) (path ++ map group_name (fst c))%list
             (effective_compare root (fst c) (snd c))
             (effective_tolerance root (fst c) (snd c)).

(* ================================================================= *)
(** ** Exceptions *)

(** What a [throw] carries: an [Error] object with its message, or any other
    value ([throw null], [throw "text"], ...). *)
Inductive Exception : Type :=
| ErrorObject (message : string)
| ThrownValue (v : Value).

(** The outcome of evaluating an expression or a call. *)
Inductive Completion (A : Type) : Type :=
| Normal (a : A)
| Throw (e : Exception).
Arguments Normal {A} a.
Arguments Throw {A} e.

Definition bind {A B : Type} (c : Completion A) (k : A -> Completion B) : Completion B :=
  match c with
  | Normal a => k a
  | Throw e => Throw e
  end.

Notation "x <- c ;; k" := (bind c (fun x => k))
  (at level 61, c at next level, right associativity).

(** [try { body } catch (error) { handler(error) }] *)
Definition try_catch {A : Type} (body : Completion A)
    (handler : Exception -> Completion A) : Completion A :=
  match body with
  | Normal a => Normal a
  | Throw e => handler e
  end.

(** [interface TestResult]; [actual = Some VUndefined] is an [actual] field
    holding [undefined], [actual = None] is no [actual] field. *)
Inductive Status : Type := PASS | FAIL | SKIP | ERROR.

Record TestResult : Type := mkTestResult {
  result_test : FlatTest;
  status : Status;
  message : option string;
  actual : option Value
}.

(** An implementation function, and [Record<string, Function>]. *)
Definition Operation : Type := Value -> Completion Value.
Definition Implementation : Type := string -> option Operation.

(** A call [opFunc(test.input)] made by the runner. *)
Definition Invocation : Type := (string * Value)%type.

(* ================================================================= *)
(** ** The evaluator *)

Definition double_quote : string := String "034" EmptyString.
Definition backslash : string := String "092" EmptyString.

Definition hex_digit (n : nat) : string :=
  String (nth n (list_ascii_of_string "0123456789abcdef") "0"%char) EmptyString.

(** The escape of one character in [JSON.stringify]'s quoting of a string. *)
Definition quote_char (c : ascii) : string :=
  let n := nat_of_ascii c in
  if Nat.eqb n 34 then backslash ++ double_quote
  else if Nat.eqb n 92 then backslash ++ backslash
  else if Nat.eqb n 8 then backslash ++ "b"
  else if Nat.eqb n 9 then backslash ++ "t"
  else if Nat.eqb n 10 then backslash ++ "n"
  else if Nat.eqb n 12 then backslash ++ "f"
  else if Nat.eqb n 13 then backslash ++ "r"
  else if Nat.ltb n 32 then backslash ++ "u00" ++ hex_digit (n / 16) ++ hex_digit (n mod 16)
  else String c EmptyString.

Definition quote (s : string) : string :=
  double_quote ++ String.concat "" (map quote_char (list_ascii_of_string s)) ++ double_quote.

(** [test.skip], [test.xfail] used as conditions. *)
Definition truthy_string (s : option string) : bool :=
  match s with
  | Some s => negb (String.eqb s "")
  | None => false
  end.

Definition truthy_bool (b : option bool) : bool :=
  match b with Some true => true | _ => false end.

Section Runner.

(** The engine's conversion of a number to text ([Number.prototype.toString],
    radix 10), which ECMAScript leaves partly to the implementation, and
    the text of the [TypeError]s the engine raises. *)
Variable NumberToString : float -> string.
Variable TypeErrorMessage : string.

Definition TypeError : Exception := ErrorObject TypeErrorMessage.

(** [JSON.stringify(v)]; [None] is the result [undefined]. *)
Fixpoint JSON_stringify (v : Value) : option string :=
  match v with
  | VUndefined => None
  | VNull => Some "null"
  | VBool b => Some (if b then "true" else "false")
  | VNum n => Some (if PrimFloat.is_finite n then NumberToString n else "null")
  | VStr s => Some (quote s)
  | VArr l =>
      Some ("[" ++ String.concat ","
              (map (fun x => match JSON_stringify x with Some s => s | None => "null" end) l)
            ++ "]")
  | VObj ps =>
      Some ("{" ++ String.concat ","
              (flat_map (fun p => match JSON_stringify (snd p) with
                                  | Some s => [quote (fst p) ++ ":" ++ s]
                                  | None => []
                                  end) ps)
            ++ "}")
  end.

(** The text a value contributes to a template literal, or the exception
    that its conversion raises.  An array is converted by [join]; a plain
    object by [Object.prototype.toString], unless it has a property
    [toString] of its own: no value of a document or of this model is
    callable, and the conversion then raises a [TypeError]. *)
Fixpoint ToString (v : Value) : Completion string :=
  match v with
  | VUndefined => Normal "undefined"
  | VNull => Normal "null"
  | VBool b => Normal (if b then "true" else "false")
  | VNum n => Normal (NumberToString n)
  | VStr s => Normal s
  | VArr l =>
      parts <-
        (fix each (l : list Value) : Completion (list string) :=
           match l with
           | [] => Normal []
           | x :: l' =>
               part <- match x with
                       | VUndefined | VNull => Normal ""
                       | _ => ToString x
                       end ;;
               rest <- each l' ;;
               Normal (part :: rest)
           end) l ;;
      Normal (String.concat "," parts)
  | VObj ps =>
      match assoc "toString" ps with
      | Some _ => Throw TypeError
      | None => Normal "[object Object]"
      end
  end.

Definition text_or_undefined (s : option string) : string :=
  match s with Some s => s | None => "undefined" end.

(** [compare(actual, expected, mode, tolerance)].  In approx mode the
    tolerance is passed on as it is ([tolerance!]); [approxEqual] then
    destructures it, which raises a [TypeError] when it is [undefined]. *)
Definition compare (actual expected : Value) (mode : CompareMode)
    (tolerance : option Tolerance) : Completion bool :=
  match mode with
  | Strict =>
      Normal (match JSON_stringify actual, JSON_stringify expected with
              | Some s, Some s' => String.eqb s s'
              | None, None => true
              | _, _ => false
              end)
  | Deep => Normal (deepEqual actual expected)
  | Approx =>
      match tolerance with
      | Some tolerance => Normal (approxEqual actual expected tolerance)
      | None => Throw TypeError
      end
  end.

(** [error.message] *)
Definition error_message (error : Exception) : Completion Value :=
  match error with
  | ErrorObject m => Normal (VStr m)
  | ThrownValue VUndefined | ThrownValue VNull => Throw TypeError
  | ThrownValue (VObj ps) => Normal (get (VObj ps) "message")
  | ThrownValue _ => Normal VUndefined
  end.

(** The text of [error.message] in the template literal of the [catch]
    block of [runTest]. *)
Definition exception_text (error : Exception) : Completion string :=
  m <- error_message error ;;
  ToString m.

(** The [try] block of [runTest], with the calls it makes to the
    implementation. *)
Definition runTest_try (implementation : Implementation) (t : FlatTest)
    : list Invocation * Completion TestResult :=
  match implementation (op (test t)) with
  | None =>
      ([], Normal (mkTestResult t ERROR
                     (Some ("Operation '" ++ op (test t) ++ "' not found in implementation"))
                     None))
  | Some opFunc =>
      ([(op (test t), input (test t))],
       actual <- opFunc (input (test t)) ;;
       if hasSpecialValues actual then
         Normal (mkTestResult t ERROR
                   (Some "Implementation returned NaN or Infinity (forbidden in GCSF v1)")
                   (Some actual))
       else if CompareMode_eqb (resolvedCompare t) Approx
               && match resolvedTolerance t with None => true | Some _ => false end then
         Normal (mkTestResult t ERROR
                   (Some ("compare=" ++ double_quote ++ "approx" ++ double_quote
                          ++ " requires tolerance to be set"))
                   None)
       else
         matches <- compare actual (expected (test t)) (resolvedCompare t)
                      (resolvedTolerance t) ;;
         let status :=
           if truthy_bool (xfail (test t))
           then (if matches : bool then FAIL else PASS)
           else (if matches : bool then PASS else FAIL) in
         Normal (mkTestResult t status
                   (match status with
                    | FAIL =>
                        Some ("Expected "
                              ++ text_or_undefined (JSON_stringify (expected (test t)))
                              ++ ", got " ++ text_or_undefined (JSON_stringify actual))
                    | _ => None
                    end)
                   (Some actual)))
  end.

(** [runTest(test)]: the result, or the exception that leaves the method,
    with the calls made to the implementation. *)
Definition runTest (implementation : Implementation) (t : FlatTest)
    : list Invocation * Completion TestResult :=
  if truthy_string (skip (test t)) then
    ([], Normal (mkTestResult t SKIP (skip (test t)) None))
  else
    let (calls, body) := runTest_try implementation t in
    (calls,
     try_catch body
       (fun error =>
          text <- exception_text error ;;
          Normal (mkTestResult t ERROR (Some ("Exception: " ++ text)) None))).

(** The loop of [run]: [results.push(this.runTest(test))] for each test in
    turn; an exception leaving [runTest] leaves the loop and [run]. *)
Fixpoint run_loop (implementation : Implementation) (flatTests : list FlatTest)
    (results : list TestResult) : list Invocation * Completion (list TestResult) :=
  match flatTests with
  | [] => ([], Normal results)
  | t :: rest =>
      match runTest implementation t with
      | (calls, Normal r) =>
          let (calls', out) := run_loop implementation rest (results ++ [r])%list in
          ((calls ++ calls')%list, out)
      | (calls, Throw e) => (calls, Throw e)
      end
  end.

(** [run()] *)
Definition run (implementation : Implementation) (spec : Spec)
    : list Invocation * Completion (list TestResult) :=
  let flatTests := flattenGroups (spec_groups spec) [] (spec_defaults spec) in
  run_loop implementation flatTests [].

End Runner.

(* ================================================================= *)
(** ** Notions used to state the properties *)

(** [Math.abs(a - b)] *)
Definition distance (a b : float) : float := PrimFloat.abs (a - b).

(** [occurs_in x v]: [x] is [v] or occurs in it at some depth, through the
    elements of arrays and the property values of objects. *)
Inductive occurs_in (x : Value) : Value -> Prop :=
| occurs_here : occurs_in x x
| occurs_element : forall l v, In v l -> occurs_in x v -> occurs_in x (VArr l)
| occurs_property : forall ps k v, In (k, v) ps -> occurs_in x v -> occurs_in x (VObj ps).

(** The fixed messages of the evaluator. *)
Definition special_value_message : string :=
  "Implementation returned NaN or Infinity (forbidden in GCSF v1)".

Definition tolerance_required_message : string :=
  "compare=" ++ double_quote ++ "approx" ++ double_quote ++ " requires tolerance to be set".

(** The objects [{a: 1, b: 2}] and [{b: 2, a: 1}]. *)
Definition object_a_b : Value := VObj [("a", VNum 1); ("b", VNum 2)].
Definition object_b_a : Value := VObj [("b", VNum 2); ("a", VNum 1)].

(** An engine for the examples.  [integer_text] is the conversion of numbers
    to text on the integers of magnitude below 2^53, on NaN and on the
    infinities, where ECMAScript fixes it; the examples print no other number
    (they are given the text of NaN here). *)
Definition integer_text (n : float) : string :=
  match Prim2SF n with
  | S754_zero _ => "0"
  | S754_infinity s => if s then "-Infinity" else "Infinity"
  | S754_nan => "NaN"
  | S754_finite s m e =>
      let sign := if s then "-" else "" in
      match e with
      | Z0 => sign ++ NilEmpty.string_of_uint (Pos.to_uint m)
      | Zpos k => sign ++ NilEmpty.string_of_uint (Pos.to_uint (m * 2 ^ k))
      | Zneg k =>
          match Z.pos m / 2 ^ Z.pos k, Z.pos m mod 2 ^ Z.pos k with
          | Zpos q, Z0 => sign ++ NilEmpty.string_of_uint (Pos.to_uint q)
          | _, _ => "NaN"
          end%Z
      end
  end.

Definition engine_type_error : string := "TypeError".

(** *** Example cases and implementations *)

Definition plain_test (name operation : string) (i e : Value) : Test :=
  mkTest name None operation i e None None None None None None.

Definition resolved (t : Test) (mode : CompareMode) (tolerance : option Tolerance)
    : FlatTest :=
  mkFlatTest t ["examples"] mode tolerance.

(** An implementation with no operation. *)
Definition no_operations : Implementation := fun _ => None.

(** [divide] returns [{result: a / b}]; [same] returns its input; [fail]
    throws an [Error]; [boom] does [throw null]. *)
Definition sample_operations : Implementation :=
  fun name =>
    if String.eqb name "divide" then
      Some (fun i =>
              match get i "a", get i "b" with
              | VNum a, VNum b => Normal (VObj [("result", VNum (a / b))])
              | _, _ => Throw (ErrorObject "divide: numbers expected")
              end)
    else if String.eqb name "same" then Some (fun i => Normal i)
    else if String.eqb name "fail" then
      Some (fun _ => Throw (ErrorObject "HSL conversion not implemented"))
    else if String.eqb name "boom" then Some (fun _ => Throw (ThrownValue VNull))
    else None.

(** A case skipped with a reason, and a case whose [skip] is the empty
    string; the operation of both is missing. *)
Definition skipped_case : FlatTest :=
  resolved (mkTest "hsl" None "hsl_to_rgb" VNull VNull None None None None
              (Some "not implemented yet") None) Strict None.

Definition empty_skip_case : FlatTest :=
  resolved (mkTest "hsl" None "hsl_to_rgb" VNull VNull None None None None (Some "") None)
           Strict None.

(** [divide] on [{a: 1, b: 0}], expecting [{result: Infinity}], in deep mode. *)
Definition division_by_zero_case : FlatTest :=
  resolved (plain_test "by_zero" "divide" (VObj [("a", VNum 1); ("b", VNum 0)])
              (VObj [("result", VNum infinity)])) Deep None.

(** [same] on [{x: 1}], expecting [{x: 1}], in approx mode with no tolerance. *)
Definition approx_without_tolerance_case : FlatTest :=
  resolved (plain_test "exact" "same" (VObj [("x", VNum 1)]) (VObj [("x", VNum 1)]))
           Approx None.

Definition failing_case : FlatTest :=
  resolved (plain_test "hsl" "fail" VNull VNull) Strict None.

Definition boom_case : FlatTest :=
  resolved (plain_test "first" "boom" VNull VNull) Strict None.

Definition after_boom_case : FlatTest :=
  resolved (plain_test "second" "same" VNull VNull) Strict None.

(** A tree with root defaults [{compare: "deep"}]: the group [outer] sets
    [{tolerance: 0.5}] and contains the group [inner], which sets
    [{compare: "approx"}] and holds one test without fields of its own. *)
Definition inherited_test : Test := plain_test "leaf" "same" VNull VNull.

Definition inner_group : Group :=
  mkGroup "inner" None (Some (mkDefaults (Some Approx) None)) None (Some [inherited_test]).

Definition outer_group : Group :=
  mkGroup "outer" None (Some (mkDefaults None (Some (TolNumber 0.5)))) (Some [inner_group]) None.

Definition root_defaults : option Defaults := Some (mkDefaults (Some Deep) None).

Definition inherited_case : FlatTest :=
  mkFlatTest inherited_test ["outer"; "inner"] Approx (Some (TolNumber 0.5)).

(** [same_up_to_key_order v v']: [v'] is [v] with the properties of its
    objects, at any depth, listed in another order.  The objects that are
    reordered have pairwise distinct keys. *)
Inductive same_up_to_key_order : Value -> Value -> Prop :=
| same_value : forall v, same_up_to_key_order v v
| same_array : forall l l',
    Forall2 same_up_to_key_order l l' -> same_up_to_key_order (VArr l) (VArr l')
| same_object : forall pa pb,
    NoDup (map fst pa) ->
    Permutation (map fst pa) (map fst pb) ->
    (forall k, In k (map fst pa) ->
       same_up_to_key_order (get (VObj pa) k) (get (VObj pb) k)) ->
    same_up_to_key_order (VObj pa) (VObj pb).

(** [{p: {a: 1, b: 2}, q: 3}] and [{q: 3, p: {b: 2, a: 1}}]. *)
Definition nested_p_q : Value := VObj [("p", object_a_b); ("q", VNum 3)].
Definition nested_q_p : Value := VObj [("q", VNum 3); ("p", object_b_a)].

(** The comparison of one field under a structured tolerance. *)
Definition field_verdict (tolerance : Tolerance) (x y : Value) : bool :=
  match x, y with
  | VNum _, VNum _ => approxEqual x y tolerance
  | _, _ => deepEqual x y
  end.

(** A document with one group of two tests: the first calls [fail], which
    throws an [Error], the second calls [same]. *)
Definition failing_test : Test := plain_test "hsl" "fail" VNull VNull.

Definition mixed_group : Group :=
  mkGroup "mixed" None None None (Some [failing_test; inherited_test]).

Definition mixed_spec : Spec := mkSpec "mixed" "0.1.0" None None None [mixed_group].


(** Arrays and plain objects: the values of type object other than [null]. *)
Definition is_container (v : Value) : bool :=
  match v with VArr _ | VObj _ => true | _ => false end.

(* ================================================================= *)
(** ** Reporting *)

Definition Status_eqb (s s' : Status) : bool :=
  match s, s' with
  | PASS, PASS | FAIL, FAIL | SKIP, SKIP | ERROR, ERROR => true
  | _, _ => false
  end.

Definition status_text (s : Status) : string :=
  match s with PASS => "PASS" | FAIL => "FAIL" | SKIP => "SKIP" | ERROR => "ERROR" end.

(** The icon table of [printResults]. *)
Definition icon (s : Status) : string :=
  match s with PASS => "✓" | FAIL => "✗" | SKIP => "○" | ERROR => "⚠" end.

(** [s.repeat(n)] *)
Fixpoint repeat_string (s : string) (n : nat) : string :=
  match n with
  | 0 => ""
  | S n' => s ++ repeat_string s n'
  end.

(** [s.padEnd(n)] on a text of one unit per character. *)
Definition padEnd (s : string) (n : nat) : string :=
  s ++ repeat_string " " (n - String.length s).

(** The text of a count in a template literal. *)
Definition count_text (n : nat) : string := NilEmpty.string_of_uint (Nat.to_uint n).

(** [results.filter((r) => r.status === s).length] *)
Definition count_status (s : Status) (results : list TestResult) : nat :=
  List.length (filter (fun r => Status_eqb (status r) s) results).

(** The lines logged for one result: the verdict line and, when the message
    is a non-empty string, the message line. *)
Definition result_lines (result : TestResult) : list string :=
  let path :=
    String.concat " › "
      (groupPath (result_test result) ++ [id (test (result_test result))])%list in
  (icon (status result) ++ " " ++ padEnd (status_text (status result)) 5 ++ " " ++ path)
  :: (if truthy_string (message result)
      then ["  " ++ match message result with Some m => m | None => "" end]
      else []).

(** The summary line of [printResults]. *)
Definition total_line (total passed failed skipped errors : nat) : string :=
  "Total: " ++ count_text total
  ++ " | Pass: " ++ count_text passed
  ++ " | Fail: " ++ count_text failed
  ++ " | Skip: " ++ count_text skipped
  ++ " | Error: " ++ count_text errors.

(** [printResults(results)]: the arguments of the calls to [console.log], in
    order (one text per call, the empty text for the call without
    argument), and the returned value. *)
Definition printResults (results : list TestResult) : list string * bool :=
  let passed := count_status PASS results in
  let failed := count_status FAIL results in
  let skipped := count_status SKIP results in
  let errors := count_status ERROR results in
  (app [String "010" "Test Results:"; repeat_string "=" 60]
     (app (flat_map result_lines results)
        [repeat_string "=" 60;
         total_line (List.length results) passed failed skipped errors;
         ""]),
   Nat.eqb failed 0 && Nat.eqb errors 0).

(** The number of tests of a tree of groups. *)
Fixpoint tests_of_group (g : Group) : nat :=
  match g with
  | mkGroup _ _ _ groups tests =>
      match groups with
      | Some gs => fold_right (fun g n => tests_of_group g + n) 0 gs
      | None => 0
      end
      + match tests with Some ts => List.length ts | None => 0 end
  end.

Definition tests_of (groups : list Group) : nat :=
  fold_right (fun g n => tests_of_group g + n) 0 groups.

(** *** More example cases *)

(** [same] on [{x: 1}], expecting [{x: 2}], marked xfail, in strict mode. *)
Definition xfail_case : FlatTest :=
  resolved (mkTest "known_bug" None "same" (VObj [("x", VNum 1)]) (VObj [("x", VNum 2)])
              None None None (Some true) None None) Strict None.

(** [same] on [{x: 1}], expecting [{x: 1}], in approx mode with tolerance 0.5. *)
Definition exact_case : FlatTest :=
  resolved (plain_test "exact" "same" (VObj [("x", VNum 1)]) (VObj [("x", VNum 1)]))
           Approx (Some (TolNumber 0.5)).

(** An implementation whose operation [check] does [throw "out of range"]. *)
Definition throwing_operations : Implementation :=
  fun name =>
    if String.eqb name "check" then Some (fun _ => Throw (ThrownValue (VStr "out of range")))
    else None.

Definition thrown_text_case : FlatTest :=
  resolved (plain_test "range" "check" VNull VNull) Strict None.

(** The document of the tree [outer_group] with its root defaults. *)
Definition sample_spec : Spec :=
  mkSpec "sample" "0.1.0" None None root_defaults [outer_group].

(* ================================================================= *)
(** * Properties *)

(** ** The recursive equations of the comparator *)

Section DepthRecursionFacts.
Context {X : Type}.
Variable F : (Value -> X -> bool) -> Value -> X -> bool.
Hypothesis F_descends :
  forall f g a x, (forall v y, depth v < depth a -> f v y = g v y) -> F f a x = F g a x.

Lemma iterate_stable :
  forall n m a x, depth a < n -> depth a < m -> iterate F n a x = iterate F m a x.
Proof.
  induction n as [|n IH]; intros m a x Hn Hm; [lia|].
  destruct m as [|m]; [lia|].
  cbn [iterate]. apply F_descends. intros v y Hv. apply IH; lia.
Qed.

Lemma rec_on_depth_unfold :
  forall a x, rec_on_depth F a x = F (rec_on_depth F) a x.
Proof.
  intros a x. unfold rec_on_depth at 1. cbn [iterate].
  apply F_descends. intros v y Hv. apply iterate_stable; lia.
Qed.
End DepthRecursionFacts.

Lemma depth_element : forall l v, In v l -> depth v < depth (VArr l).
Proof.
  intros l v Hin. cbn [depth]. apply Nat.lt_succ_r.
  induction l as [|x l IH]; [contradiction|].
  cbn [fold_right]. destruct Hin as [->|Hin]; [lia|]. specialize (IH Hin). lia.
Qed.

Lemma depth_property : forall ps k v, In (k, v) ps -> depth v < depth (VObj ps).
Proof.
  intros ps k v Hin. cbn [depth]. apply Nat.lt_succ_r.
  induction ps as [|p ps IH]; [contradiction|].
  cbn [fold_right]. destruct Hin as [->|Hin]; [cbn [snd]; lia|]. specialize (IH Hin). lia.
Qed.

Lemma assoc_In : forall (A : Type) key (l : list (string * A)) v,
  assoc key l = Some v -> In (key, v) l.
Proof.
  intros A key l v. induction l as [|[k x] l IH]; cbn [assoc]; [discriminate|].
  destruct (String.eqb k key) eqn:E.
  - intros [= ->]. apply String.eqb_eq in E. subst. now left.
  - intros H. right. auto.
Qed.

Lemma element_at_key_In : forall l i key v, element_at_key i key l = Some v -> In v l.
Proof.
  induction l as [|x l IH]; intros i key v; cbn [element_at_key]; [discriminate|].
  destruct (String.eqb (index_key i) key).
  - intros [= ->]. now left.
  - intros H. right. eauto.
Qed.

(** Reading a property of an array or an object goes one level down. *)
Lemma depth_get : forall a key,
  JsType_eqb (typeof a) TObject && negb (is_null a) = true ->
  depth (get a key) < depth a.
Proof.
  intros a key H. destruct a; try discriminate H; cbn [get].
  - destruct (element_at_key 0 key elements) as [v|] eqn:E.
    + apply element_at_key_In in E. now apply depth_element.
    + cbn. lia.
  - destruct (assoc key properties) as [v|] eqn:E.
    + apply assoc_In in E. eapply depth_property; eauto.
    + cbn. lia.
Qed.

Lemma every_from_ext : forall (A : Type) (f g : A -> nat -> bool) l i,
  (forall x j, In x l -> f x j = g x j) -> every_from f i l = every_from g i l.
Proof.
  intros A f g l. induction l as [|x l IH]; intros i H; cbn [every_from]; [reflexivity|].
  rewrite (H x i) by now left. rewrite IH; [reflexivity|].
  intros y j Hy. apply H. now right.
Qed.

Lemma every_ext : forall (A : Type) (f g : A -> bool) l,
  (forall x, In x l -> f x = g x) -> every f l = every g l.
Proof.
  intros A f g l H. unfold every, every_idx. apply every_from_ext. intros x _ Hx. auto.
Qed.

Lemma some_ext : forall (A : Type) (f g : A -> bool) l,
  (forall x, In x l -> f x = g x) -> some f l = some g l.
Proof.
  intros A f g l. unfold some. induction l as [|x l IH]; intros H; cbn [existsb]; [reflexivity|].
  rewrite (H x) by now left. rewrite IH; [reflexivity|]. intros y Hy. apply H. now right.
Qed.

Lemma both_objects_left : forall a b,
  both_objects a b = true -> JsType_eqb (typeof a) TObject && negb (is_null a) = true.
Proof.
  intros a b. unfold both_objects. destruct (JsType_eqb (typeof a) TObject); [|discriminate].
  destruct (JsType_eqb (typeof b) TObject); [|discriminate].
  destruct (is_null a); [discriminate|]. reflexivity.
Qed.

Lemma deepEqual_body_descends : forall f g a b,
  (forall v y, depth v < depth a -> f v y = g v y) ->
  deepEqual_body f a b = deepEqual_body g a b.
Proof.
  intros f g a b H. unfold deepEqual_body.
  destruct (strict_equals a b); [reflexivity|].
  destruct (is_nullish a || is_nullish b) eqn:En; [reflexivity|].
  destruct (negb (JsType_eqb (typeof a) (typeof b))); [reflexivity|].
  destruct (isArray a && isArray b) eqn:Ea.
  - destruct (negb _); [reflexivity|].
    apply every_from_ext. intros x j Hx. apply H.
    destruct a; try discriminate Ea. now apply depth_element.
  - destruct (JsType_eqb (typeof a) TObject && JsType_eqb (typeof b) TObject) eqn:Eo;
      [|reflexivity].
    cbv zeta. destruct (negb _); [reflexivity|]. destruct (negb _); [reflexivity|].
    apply every_ext. intros key _. apply H. apply depth_get.
    destruct a; try discriminate Eo; try discriminate En; reflexivity.
Qed.

(** The recursive equation of [deepEqual]: the source's function body, with
    [this.deepEqual] for the recursive calls. *)
Lemma deepEqual_unfold : forall a b, deepEqual a b = deepEqual_body deepEqual a b.
Proof.
  intros a b. unfold deepEqual. apply rec_on_depth_unfold.
  intros f g a' b' H. now apply deepEqual_body_descends.
Qed.

Lemma approxEqualWithAbsTolerance_body_descends : forall f g a b t,
  (forall v y t', depth v < depth a -> f v y t' = g v y t') ->
  approxEqualWithAbsTolerance_body f a b t = approxEqualWithAbsTolerance_body g a b t.
Proof.
  intros f g a b t H. unfold approxEqualWithAbsTolerance_body.
  assert (R : (if both_objects a b
               then if keys_differ (sort (Object_keys a)) (sort (Object_keys b)) then false
                    else every (fun key => f (get a key) (get b key) t) (sort (Object_keys a))
               else deepEqual a b)
            = (if both_objects a b
               then if keys_differ (sort (Object_keys a)) (sort (Object_keys b)) then false
                    else every (fun key => g (get a key) (get b key) t) (sort (Object_keys a))
               else deepEqual a b)).
  { destruct (both_objects a b) eqn:E; [|reflexivity].
    destruct (keys_differ _ _); [reflexivity|].
    apply every_ext. intros key _. apply H. apply depth_get. eapply both_objects_left; eauto. }
  destruct a; try exact R. destruct b; exact R || reflexivity.
Qed.

Lemma approxEqualWithAbsTolerance_unfold : forall a b t,
  approxEqualWithAbsTolerance a b t =
  approxEqualWithAbsTolerance_body approxEqualWithAbsTolerance a b t.
Proof.
  intros a b t. unfold approxEqualWithAbsTolerance at 1.
  rewrite rec_on_depth_unfold; [reflexivity|].
  intros f g a' [b' t'] H. apply approxEqualWithAbsTolerance_body_descends.
  intros v y t'' Hv. now apply H.
Qed.

Lemma approxEqual_body_descends : forall f g a b t,
  (forall v y t', depth v < depth a -> f v y t' = g v y t') ->
  approxEqual_body f a b t = approxEqual_body g a b t.
Proof.
  intros f g a b t H. unfold approxEqual_body.
  destruct t as [t|abs rel fields]; [reflexivity|].
  set (step := fun (self : Value -> Value -> Tolerance -> bool) =>
    if both_objects a b
    then if keys_differ (sort (Object_keys a)) (sort (Object_keys b)) then false
         else every (fun key =>
                 let fieldTolerance := field_tolerance fields key (TolObject abs rel fields) in
                 match get a key, get b key with
                 | VNum _, VNum _ => self (get a key) (get b key) fieldTolerance
                 | _, _ => deepEqual (get a key) (get b key)
                 end) (sort (Object_keys a))
    else deepEqual a b).
  assert (R : step f = step g).
  { unfold step. destruct (both_objects a b) eqn:E; [|reflexivity].
    destruct (keys_differ _ _); [reflexivity|].
    apply every_ext. intros key _. cbv zeta.
    rewrite (H (get a key)); [reflexivity|].
    apply depth_get. eapply both_objects_left; eauto. }
  destruct a; try exact R. destruct b; exact R || reflexivity.
Qed.

Lemma approxEqual_unfold : forall a b t,
  approxEqual a b t = approxEqual_body approxEqual a b t.
Proof.
  intros a b t. unfold approxEqual at 1.
  rewrite rec_on_depth_unfold; [reflexivity|].
  intros f g a' [b' t'] H. apply approxEqual_body_descends.
  intros v y t'' Hv. now apply H.
Qed.

Lemma hasSpecialValues_body_descends : forall f g value,
  (forall v, depth v < depth value -> f v = g v) ->
  hasSpecialValues_body f value = hasSpecialValues_body g value.
Proof.
  intros f g value H.
  destruct value; try reflexivity; cbn.
  - apply some_ext. intros x Hx. apply H. now apply depth_element.
  - apply some_ext. intros x Hx. apply H. apply in_map_iff in Hx.
    destruct Hx as [[k v] [<- Hin]]. eapply depth_property; eauto.
Qed.

Lemma hasSpecialValues_unfold : forall value,
  hasSpecialValues value = hasSpecialValues_body hasSpecialValues value.
Proof.
  intros value. unfold hasSpecialValues at 1.
  rewrite rec_on_depth_unfold; [reflexivity|].
  intros f g a [] H. apply hasSpecialValues_body_descends. intros v Hv. now apply H.
Qed.

(* ================================================================= *)
(** ** The comparator: objects and their keys *)

(** Two values of type object that are not both arrays are compared through
    their sorted keys. *)
Lemma deepEqual_by_keys : forall a b,
  typeof a = TObject -> typeof b = TObject ->
  is_null a = false -> is_null b = false ->
  isArray a && isArray b = false ->
  deepEqual a b
  = negb (keys_differ (sort (Object_keys a)) (sort (Object_keys b)))
    && every (fun key => deepEqual (get a key) (get b key)) (sort (Object_keys a)).
Proof.
  intros a b Ha Hb Hna Hnb Harr. rewrite deepEqual_unfold. unfold deepEqual_body.
  rewrite Harr, Ha, Hb. cbn [JsType_eqb negb andb].
  assert (Es : strict_equals a b = false) by (destruct a; try discriminate; reflexivity).
  assert (En : is_nullish a || is_nullish b = false).
  { destruct a; try discriminate; destruct b; try discriminate; reflexivity. }
  rewrite Es, En. unfold keys_differ.
  destruct (negb (Nat.eqb _ _)); [reflexivity|].
  destruct (negb (every_idx _ _)); reflexivity.
Qed.


(* ================================================================= *)
(** ** The flattener *)

(** Induction on a tree of groups: a property holds of every group when it
    holds of a group as soon as it holds of its child groups. *)
Lemma Group_tree_ind (P : Group -> Prop)
    (step : forall g, Forall P (subgroups g) -> P g) : forall g, P g.
Proof.
  exact (fix rec (g : Group) : P g :=
    match g as g0 return (Forall P (subgroups g0) -> P g0) -> P g0 with
    | mkGroup name desc dfl groups tests => fun k =>
        k (match groups as o return Forall P (match o with Some gs => gs | None => [] end) with
           | Some gs =>
               (fix all (l : list Group) : Forall P l :=
                  match l with
                  | [] => Forall_nil P
                  | x :: l' => Forall_cons x (rec x) (all l')
                  end) gs
           | None => Forall_nil P
           end)
    end (step g)).
Qed.

Lemma push_each : forall (A B : Type) (f : A -> B) l acc,
  fold_left (fun acc x => (acc ++ [f x])%list) l acc = (acc ++ map f l)%list.
Proof.
  intros A B f l. induction l as [|x l IH]; intros acc; cbn [fold_left map].
  - now rewrite app_nil_r.
  - rewrite IH, <- app_assoc. reflexivity.
Qed.

Lemma flatten_all_fold : forall path d gs acc,
  (fix flatten_all (gs : list Group) (acc : list FlatTest) : list FlatTest :=
     match gs with
     | [] => acc
     | g' :: gs' => flatten_all gs' (flatten_group path d acc g')
     end) gs acc
  = fold_left (flatten_group path d) gs acc.
Proof.
  intros path d gs. induction gs as [|g gs IH]; intros acc; [reflexivity|].
  cbn [fold_left]. apply IH.
Qed.

(** One iteration of the loop, in terms of [flattenGroups] on the child
    groups. *)
Lemma flatten_group_eq : forall path d acc g,
  flatten_group path d acc g =
  (acc ++ flattenGroups (subgroups g) (path ++ [group_name g])
            (Some (spread_defaults d (group_defaults g)))
       ++ map (resolve_test (path ++ [group_name g]) (spread_defaults d (group_defaults g)))
              (direct_tests g))%list.
Proof.
  intros path d acc [name desc dfl groups tests].
  unfold flattenGroups, subgroups, direct_tests.
  cbn [flatten_group group_name group_defaults group_groups group_tests].
  destruct groups as [gs|]; destruct tests as [ts|];
    rewrite ?flatten_all_fold, ?push_each; cbn [fold_left map];
    rewrite ?app_nil_r, <- ?app_assoc; reflexivity.
Qed.

Lemma flattenGroups_acc : forall path d gs acc,
  fold_left (flatten_group path d) gs acc = (acc ++ flattenGroups gs path d)%list.
Proof.
  intros path d gs. unfold flattenGroups.
  induction gs as [|g gs IH]; intros acc; cbn [fold_left].
  - now rewrite app_nil_r.
  - rewrite IH. rewrite (IH (flatten_group path d [] g)).
    rewrite (flatten_group_eq path d acc g), (flatten_group_eq path d [] g).
    cbn [app]. now rewrite <- !app_assoc.
Qed.

Lemma flattenGroups_cons : forall g gs path d,
  flattenGroups (g :: gs) path d =
  (flattenGroups (subgroups g) (path ++ [group_name g])
     (Some (spread_defaults d (group_defaults g)))
   ++ map (resolve_test (path ++ [group_name g]) (spread_defaults d (group_defaults g)))
          (direct_tests g)
   ++ flattenGroups gs path d)%list.
Proof.
  intros g gs path d. unfold flattenGroups at 1. cbn [fold_left].
  rewrite flattenGroups_acc, flatten_group_eq. cbn [app]. now rewrite <- app_assoc.
Qed.

Lemma first_present_app : forall (A : Type) (l l' : list (option A)),
  first_present (l ++ l') = or_else (first_present l) (first_present l').
Proof.
  intros A l l'. induction l as [|[a|] l IH]; cbn; auto.
Qed.

Lemma or_else_assoc : forall (A : Type) (x y z : option A),
  or_else (or_else x y) z = or_else x (or_else y z).
Proof. intros A [a|] y z; reflexivity. Qed.

Lemma by_precedence_eq : forall (A : Type) (own : option A) f chain root,
  by_precedence own f chain root =
  or_else own
    (or_else (first_present (map (fun g => f (group_defaults g)) (rev chain))) (f root)).
Proof.
  intros A own f chain root. unfold by_precedence.
  change (own :: ?l)%list with ([own] ++ l)%list.
  rewrite !first_present_app. cbn [first_present].
  destruct own, (first_present _), (f root); reflexivity.
Qed.

(** Overlaying a group's defaults on the inherited ones is one more step of
    the search for the nearest value. *)
Lemma by_precedence_step : forall (A : Type) (own : option A) f g chain d,
  (forall dg, f (Some (spread_defaults d dg)) = or_else (f dg) (f d)) ->
  by_precedence own f chain (Some (spread_defaults d (group_defaults g))) =
  by_precedence own f (g :: chain) d.
Proof.
  intros A own f g chain d Hf. rewrite !by_precedence_eq, Hf.
  cbn [rev]. rewrite map_app, first_present_app. cbn [map first_present].
  f_equal. rewrite <- or_else_assoc. f_equal.
  destruct (first_present _), (f (group_defaults g)); reflexivity.
Qed.

Lemma compare_of_spread : forall d dg,
  compare_of (Some (spread_defaults d dg)) = or_else (compare_of dg) (compare_of d).
Proof.
  intros [d|] [dg|]; cbn; try reflexivity; destruct (defaults_compare dg); reflexivity.
Qed.

Lemma tolerance_of_spread : forall d dg,
  tolerance_of (Some (spread_defaults d dg)) = or_else (tolerance_of dg) (tolerance_of d).
Proof.
  intros [d|] [dg|]; cbn; try reflexivity; destruct (defaults_tolerance dg); reflexivity.
Qed.

Lemma resolved_case_step : forall path d g c,
  resolved_case (path ++ [group_name g]) (Some (spread_defaults d (group_defaults g))) c =
  resolved_case path d (g :: fst c, snd c).
Proof.
  intros path d g [chain t]. unfold resolved_case, effective_compare, effective_tolerance.
  cbn [fst snd map].
  rewrite (by_precedence_step _ _ compare_of g chain d (compare_of_spread d)).
  rewrite (by_precedence_step _ _ tolerance_of g chain d (tolerance_of_spread d)).
  now rewrite <- app_assoc.
Qed.

Lemma resolve_test_direct : forall path d g t,
  resolve_test (path ++ [group_name g]) (spread_defaults d (group_defaults g)) t =
  resolved_case path d ([g], t).
Proof.
  intros path d g t. unfold resolve_test, resolved_case, effective_compare, effective_tolerance.
  cbn [fst snd map]. rewrite !by_precedence_eq. cbn [rev app map first_present].
  pose proof (compare_of_spread d (group_defaults g)) as Hc.
  pose proof (tolerance_of_spread d (group_defaults g)) as Ht.
  cbn [compare_of tolerance_of] in Hc, Ht. rewrite Hc, Ht.
  f_equal.
  - destruct (test_compare t), (compare_of (group_defaults g)); reflexivity.
  - destruct (test_tolerance t), (tolerance_of (group_defaults g)); reflexivity.
Qed.

Lemma group_cases_eq : forall g,
  group_cases g =
  (map (fun c => (g :: fst c, snd c)) (cases (subgroups g))
   ++ map (fun t => ([g], t)) (direct_tests g))%list.
Proof.
  intros [name desc dfl [gs|] [ts|]]; reflexivity.
Qed.

(** The output of the flattener is the list of the cases of the tree, in
    order, each resolved under its own chain of ancestors. *)
Lemma flattenGroups_cases : forall groups path d,
  flattenGroups groups path d = map (resolved_case path d) (cases groups).
Proof.
  assert (G : forall g path d,
             flattenGroups [g] path d = map (resolved_case path d) (group_cases g)).
  { induction g as [g IH] using Group_tree_ind. intros path d.
    assert (L : forall path' d',
               flattenGroups (subgroups g) path' d'
               = map (resolved_case path' d') (cases (subgroups g))).
    { induction IH as [|x l Hx _ IHl]; intros path' d'; [reflexivity|].
      change (x :: l) with ([x] ++ l)%list.
      unfold cases. rewrite flat_map_app, map_app. fold (cases l).
      rewrite <- IHl. cbn [flat_map]. rewrite app_nil_r, <- Hx.
      rewrite (flattenGroups_cons x l), (flattenGroups_cons x []).
      cbn [app]. unfold flattenGroups at 4. cbn [fold_left].
      now rewrite app_nil_r, <- app_assoc. }
    rewrite flattenGroups_cons, group_cases_eq, map_app, !map_map, L.
    change (flattenGroups [] path d) with (@nil FlatTest). rewrite app_nil_r. f_equal.
    - apply map_ext. intros c. apply resolved_case_step.
    - apply map_ext. intros t. apply resolve_test_direct. }
  induction groups as [|g gs IH]; intros path d; [reflexivity|].
  unfold cases. cbn [flat_map]. rewrite map_app. fold (cases gs).
  rewrite <- IH, <- G.
  rewrite (flattenGroups_cons g gs), (flattenGroups_cons g []).
  unfold flattenGroups at 4. cbn [fold_left]. now rewrite app_nil_r, <- app_assoc.
Qed.

Lemma cases_ancestry : forall groups chain t,
  In (chain, t) (cases groups) -> ancestry groups chain t.
Proof.
  assert (G : forall g groups chain t,
             In g groups -> In (chain, t) (group_cases g) -> ancestry groups chain t).
  { induction g as [g IH] using Group_tree_ind. intros groups chain t Hg Hin.
    rewrite group_cases_eq in Hin. apply in_app_or in Hin. destruct Hin as [Hin|Hin].
    - apply in_map_iff in Hin. destruct Hin as [[chain' t'] [[= <- <-] Hin]].
      apply ancestry_deeper; [assumption|].
      unfold cases in Hin. apply in_flat_map in Hin. destruct Hin as [g' [Hg' Hin]].
      rewrite Forall_forall in IH. eapply IH; eauto.
    - apply in_map_iff in Hin. destruct Hin as [t' [[= <- <-] Hin]].
      now apply ancestry_parent. }
  intros groups chain t Hin. unfold cases in Hin. apply in_flat_map in Hin.
  destruct Hin as [g [Hg Hin]]. eauto.
Qed.

(** Every resolved case comes from a test of the tree under the chain of its
    ancestors, and is that test resolved under that chain. *)
Lemma flattenGroups_In : forall groups path root ft,
  In ft (flattenGroups groups path root) ->
  exists chain, ancestry groups chain (test ft) /\ ft = resolved_case path root (chain, test ft).
Proof.
  intros groups path root ft Hin. rewrite flattenGroups_cases in Hin.
  apply in_map_iff in Hin. destruct Hin as [[chain t] [<- Hin]].
  exists chain. cbn [resolved_case test fst snd]. split; [now apply cases_ancestry|reflexivity].
Qed.

Lemma Forall2_map_left : forall (A B : Type) (R : B -> A -> Prop) (f : A -> B) l,
  (forall x, In x l -> R (f x) x) -> Forall2 R (map f l) l.
Proof.
  intros A B R f l. induction l as [|x l IH]; intros H; cbn [map]; constructor.
  - apply H. now left.
  - apply IH. intros y Hy. apply H. now right.
Qed.

(** C3.  Default inheritance.  The resolved cases of the flattener are, one
    for one and in order, the tests of the tree, each under the chain of its
    ancestor groups; the effective compare mode of a case is the test's own
    [compare] if present, else that of the nearest ancestor group whose
    defaults have one, else the root defaults', else strict; its effective
    tolerance follows the same precedence without a last resort, so that it
    is absent when no level sets one. *)
Theorem default_inheritance : forall groups path root,
  Forall2 (fun ft c => ancestry groups (fst c) (snd c) /\ inherits root ft c)
          (flattenGroups groups path root) (cases groups)
  /\ (forall ft,
        In ft (flattenGroups groups path root) ->
        exists chain, ancestry groups chain (test ft) /\ inherits root ft (chain, test ft)).
Proof.
  intros groups path root. split.
  - rewrite flattenGroups_cases. apply Forall2_map_left.
    intros [chain t] Hin. split; [now apply cases_ancestry|].
    unfold inherits. cbn [resolved_case test resolvedCompare resolvedTolerance fst snd].
    repeat split.
  - intros ft Hin.
    destruct (flattenGroups_In _ _ _ _ Hin) as [chain [Ha E]].
    exists chain. split; [assumption|]. unfold inherits. cbn [fst snd].
    split; [reflexivity|]. rewrite E at 1 3. split; reflexivity.
Qed.

(** C4.  Flattening order.  The flattener is a function of the tree, the
    path and the inherited defaults.  For each group in document order its
    output holds first the cases of the group's child groups (flattened under
    the path extended with the group's name and under the merged defaults),
    then the group's own tests in their order, then the cases of the
    following groups; and the resolved cases are, one for one and in order,
    the tests of the tree, the [groupPath] of each being the starting path
    followed by the names of its ancestor groups, from the outermost to its
    immediate parent. *)
Theorem flattening_order : forall path root,
  flattenGroups [] path root = []
  /\ (forall g groups,
        flattenGroups (g :: groups) path root =
        (flattenGroups (subgroups g) (path ++ [group_name g])
           (Some (spread_defaults root (group_defaults g)))
         ++ map (resolve_test (path ++ [group_name g])
                   (spread_defaults root (group_defaults g)))
                (direct_tests g)
         ++ flattenGroups groups path root)%list)
  /\ (forall groups,
        Forall2 (fun ft c =>
                   test ft = snd c
                   /\ ancestry groups (fst c) (snd c)
                   /\ groupPath ft = (path ++ map group_name (fst c))%list)
                (flattenGroups groups path root) (cases groups)).
Proof.
  intros path root. split; [reflexivity|]. split; [intros g groups; apply flattenGroups_cons|].
  intros groups. rewrite flattenGroups_cases. apply Forall2_map_left.
  intros [chain t] Hin. cbn [resolved_case test groupPath fst snd].
  split; [reflexivity|]. split; [now apply cases_ancestry|reflexivity].
Qed.

(* ================================================================= *)
(** ** The comparator: structured tolerances *)

(** C1, as stated, fails: against the tolerance [{abs: 0.5, rel: 1}] the
    numbers 1 and 2 satisfy the relative bound ([|1 - 2| <= |2| * 1]) and are
    still rejected, because the absolute bound is violated. *)
Lemma either_bound_not_sufficient :
  PrimFloat.leb (distance 1 2) (PrimFloat.abs 2 * 1) = true
  /\ PrimFloat.leb (distance 1 2) 0.5 = false
  /\ approxEqual (VNum 1) (VNum 2) (TolObject (Some 0.5%float) (Some 1%float) None) = false.
Proof. repeat split; vm_compute; reflexivity. Qed.

(** C1, amended.  Two numbers compared against a structured tolerance pass
    exactly when no present bound is violated: the comparison fails as soon
    as [|a - b| > abs] for a present [abs], or [|a - b| > |b| * rel] for a
    present [rel]; with both present, both bounds must hold, and with none
    present the comparison passes. *)
Theorem every_present_bound_required : forall a b abs rel fields,
  approxEqual (VNum a) (VNum b) (TolObject abs rel fields) = true
  <-> (forall t, abs = Some t -> gtb (distance a b) t = false)
      /\ (forall r, rel = Some r -> gtb (distance a b) (PrimFloat.abs b * r) = false).
Proof.
  intros a b abs rel fields. rewrite approxEqual_unfold. cbn [approxEqual_body].
  fold (distance a b). split.
  - intros H. split.
    + intros t ->. destruct (gtb (distance a b) t); [discriminate|reflexivity].
    + intros r ->. destruct abs as [t|].
      * destruct (gtb (distance a b) t); [discriminate|].
        destruct (gtb (distance a b) (PrimFloat.abs b * r)); [discriminate|reflexivity].
      * destruct (gtb (distance a b) (PrimFloat.abs b * r)); [discriminate|reflexivity].
  - intros [Ha Hr]. destruct abs as [t|].
    + rewrite (Ha t eq_refl). destruct rel as [r|]; [now rewrite (Hr r eq_refl)|reflexivity].
    + destruct rel as [r|]; [now rewrite (Hr r eq_refl)|reflexivity].
Qed.

(** With both bounds present the verdict is the conjunction of the two. *)
Lemma approxEqual_both_bounds : forall a b t r fields,
  approxEqual (VNum a) (VNum b) (TolObject (Some t) (Some r) fields)
  = negb (gtb (distance a b) t) && negb (gtb (distance a b) (PrimFloat.abs b * r)).
Proof.
  intros. rewrite approxEqual_unfold. cbn [approxEqual_body]. fold (distance a b).
  destruct (gtb (distance a b) t); [reflexivity|].
  destruct (gtb (distance a b) (PrimFloat.abs b * r)); reflexivity.
Qed.

(** Under a structured tolerance a field that is not a number on both sides
    is compared by [deepEqual]: the tolerance does not reach the numbers
    nested inside it. *)
Lemma approxEqual_structured_field : forall pa pb abs rel fields,
  approxEqual (VObj pa) (VObj pb) (TolObject abs rel fields)
  = if keys_differ (sort (map fst pa)) (sort (map fst pb)) then false
    else every
           (fun key =>
              match get (VObj pa) key, get (VObj pb) key with
              | VNum x, VNum y =>
                  approxEqual (VNum x) (VNum y)
                    (field_tolerance fields key (TolObject abs rel fields))
              | x, y => deepEqual x y
              end)
           (sort (map fst pa)).
Proof.
  intros. rewrite approxEqual_unfold. cbn [approxEqual_body both_objects typeof JsType_eqb
    is_null negb andb Object_keys].
  destruct (keys_differ _ _); [reflexivity|].
  apply every_ext. intros key _. cbv zeta.
  destruct (get (VObj pa) key); try reflexivity.
  destruct (get (VObj pb) key); reflexivity.
Qed.

(** C2 at its failing input: [{p: {x: 1}}] against [{p: {x: 1.25}}].  The
    nested numbers differ by 0.25, within the bound 0.5.  With the structured
    tolerance [{abs: 0.5}] the comparison fails, the field [p] being compared
    exactly; with the plain number 0.5 as tolerance it passes, as does the
    same pair of numbers one level up. *)
Theorem structured_tolerance_stops_at_nested_values :
  let a := VObj [("p", VObj [("x", VNum 1)])] in
  let b := VObj [("p", VObj [("x", VNum 1.25)])] in
  PrimFloat.leb (distance 1 1.25) 0.5 = true
  /\ approxEqual a b (TolObject (Some 0.5%float) None None) = false
  /\ approxEqual a b (TolNumber 0.5) = true
  /\ approxEqual (get a "p") (get b "p") (TolObject (Some 0.5%float) None None) = true.
Proof. cbv zeta. repeat split; vm_compute; reflexivity. Qed.

(* ================================================================= *)
(** ** Special values *)

Lemma hasSpecialValues_depth : forall d value,
  depth value < d ->
  (hasSpecialValues value = true
   <-> exists n, occurs_in (VNum n) value /\ PrimFloat.is_finite n = false).
Proof.
  induction d as [|d IH]; intros value Hd; [lia|].
  rewrite hasSpecialValues_unfold.
  destruct value as [| |b|n|s|l|ps]; cbn [hasSpecialValues_body typeof JsType_eqb is_null
    negb andb isArray Object_values];
    try (split; [discriminate|intros [n [H _]]; inversion H]).
  - split.
    + intros H. exists n. split; [constructor|]. now destruct (PrimFloat.is_finite n).
    + intros [m [H E]]. inversion H; subst. now rewrite E.
  - unfold some. rewrite existsb_exists. split.
    + intros [x [Hx H]]. apply IH in H.
      * destruct H as [n [Ho E]]. exists n. split; [|assumption].
        eapply occurs_element; eauto.
      * pose proof (depth_element l x Hx). lia.
    + intros [n [Ho E]]. inversion Ho as [|l' v Hv Ho'|]; subst.
      exists v. split; [assumption|]. apply IH.
      * pose proof (depth_element l v Hv). lia.
      * eauto.
  - unfold some. rewrite existsb_exists. split.
    + intros [x [Hx H]]. apply in_map_iff in Hx. destruct Hx as [[k v] [<- Hin]].
      cbn [snd] in H. apply IH in H.
      * destruct H as [n [Ho E]]. exists n. split; [|assumption].
        eapply occurs_property; eauto.
      * pose proof (depth_property ps k v Hin). lia.
    + intros [n [Ho E]]. inversion Ho as [| |ps' k v Hv Ho']; subst.
      exists v. split; [apply in_map_iff; exists (k, v); auto|]. apply IH.
      * pose proof (depth_property ps k v Hv). lia.
      * eauto.
Qed.

(** [hasSpecialValues] finds the non-finite numbers at every depth. *)
Lemma hasSpecialValues_spec : forall value,
  hasSpecialValues value = true
  <-> exists n, occurs_in (VNum n) value /\ PrimFloat.is_finite n = false.
Proof. intros value. apply (hasSpecialValues_depth (S (depth value))). lia. Qed.

Lemma hasSpecialValues_finite : forall value,
  (forall n, occurs_in (VNum n) value -> PrimFloat.is_finite n = true) ->
  hasSpecialValues value = false.
Proof.
  intros value H. destruct (hasSpecialValues value) eqn:E; [|reflexivity].
  apply hasSpecialValues_spec in E. destruct E as [n [Ho E]].
  rewrite (H n Ho) in E. discriminate.
Qed.

(* ================================================================= *)
(** ** The evaluator *)

Section RunnerFacts.

Variable NumberToString : float -> string.
Variable TypeErrorMessage : string.

(** C5, amended.  A resolved case whose [skip] is a non-empty string gets
    the verdict SKIP with the skip reason as message and no actual value;
    no operation is invoked and the registry is not consulted, so that the
    verdict is SKIP also when the named operation is missing. *)
Theorem skip_takes_precedence : forall implementation t reason,
  skip (test t) = Some reason ->
  reason <> "" ->
  runTest NumberToString TypeErrorMessage implementation t
  = ([], Normal (mkTestResult t SKIP (Some reason) None)).
Proof.
  intros implementation t reason Hs Hne. unfold runTest.
  rewrite Hs. cbn [truthy_string].
  apply String.eqb_neq in Hne. rewrite Hne. reflexivity.
Qed.

(** A case that is not skipped and whose operation returns [actual]
    reaches the checks on the output. *)
Lemma runTest_returned : forall implementation t opFunc actual,
  truthy_string (skip (test t)) = false ->
  implementation (op (test t)) = Some opFunc ->
  opFunc (input (test t)) = Normal actual ->
  runTest NumberToString TypeErrorMessage implementation t =
  ([(op (test t), input (test t))],
   if hasSpecialValues actual then
     Normal (mkTestResult t ERROR (Some special_value_message) (Some actual))
   else if CompareMode_eqb (resolvedCompare t) Approx
           && match resolvedTolerance t with None => true | Some _ => false end then
     Normal (mkTestResult t ERROR (Some tolerance_required_message) None)
   else
     match compare NumberToString TypeErrorMessage actual (expected (test t))
             (resolvedCompare t) (resolvedTolerance t) with
     | Normal matches =>
         let status :=
           if truthy_bool (xfail (test t))
           then (if matches : bool then FAIL else PASS)
           else (if matches : bool then PASS else FAIL) in
         Normal (mkTestResult t status
                   (match status with
                    | FAIL =>
                        Some ("Expected "
                              ++ text_or_undefined
                                   (JSON_stringify NumberToString (expected (test t)))
                              ++ ", got "
                              ++ text_or_undefined (JSON_stringify NumberToString actual))
                    | _ => None
                    end)
                   (Some actual))
     | Throw e =>
         bind (exception_text NumberToString TypeErrorMessage e)
           (fun text => Normal (mkTestResult t ERROR (Some ("Exception: " ++ text)) None))
     end).
Proof.
  intros implementation t opFunc actual Hs Hi Ho.
  unfold runTest, runTest_try. rewrite Hs, Hi, Ho. cbn [bind].
  f_equal. destruct (hasSpecialValues actual); [reflexivity|].
  destruct (CompareMode_eqb (resolvedCompare t) Approx && _); [reflexivity|].
  destruct (compare _ _ _ _ _ _); reflexivity.
Qed.

(** C6.  Special-value rejection.  When a case is not skipped and its
    operation returns an output in which a number that is not finite (NaN
    or an infinity) occurs at any depth, the verdict is ERROR with the
    fixed forbidden-special-value message and the output as actual value,
    whatever the expected value, the compare mode and the tolerance: the
    comparison is not reached. *)
Theorem special_values_rejected : forall implementation t opFunc actual n,
  truthy_string (skip (test t)) = false ->
  implementation (op (test t)) = Some opFunc ->
  opFunc (input (test t)) = Normal actual ->
  occurs_in (VNum n) actual ->
  PrimFloat.is_finite n = false ->
  runTest NumberToString TypeErrorMessage implementation t =
  ([(op (test t), input (test t))],
   Normal (mkTestResult t ERROR (Some special_value_message) (Some actual))).
Proof.
  intros implementation t opFunc actual n Hs Hi Ho Hn Hf.
  rewrite (runTest_returned _ _ _ _ Hs Hi Ho).
  assert (E : hasSpecialValues actual = true) by (apply hasSpecialValues_spec; eauto).
  now rewrite E.
Qed.

(** C7.  Approx without tolerance.  When a case is not skipped, its
    operation exists and returns an output all of whose numbers are finite,
    the effective compare mode is approx and the effective tolerance is
    absent, the verdict is ERROR with the fixed tolerance-required message,
    whatever the output and the expected value are. *)
Theorem approx_requires_tolerance : forall implementation t opFunc actual,
  truthy_string (skip (test t)) = false ->
  implementation (op (test t)) = Some opFunc ->
  opFunc (input (test t)) = Normal actual ->
  (forall n, occurs_in (VNum n) actual -> PrimFloat.is_finite n = true) ->
  resolvedCompare t = Approx ->
  resolvedTolerance t = None ->
  runTest NumberToString TypeErrorMessage implementation t =
  ([(op (test t), input (test t))],
   Normal (mkTestResult t ERROR (Some tolerance_required_message) None)).
Proof.
  intros implementation t opFunc actual Hs Hi Ho Hfin Hc Ht.
  rewrite (runTest_returned _ _ _ _ Hs Hi Ho).
  rewrite (hasSpecialValues_finite _ Hfin), Hc, Ht. reflexivity.
Qed.

End RunnerFacts.

Section EngineFailures.

Variable NumberToString : float -> string.
Variable TypeErrorMessage : string.

(** An operation that throws an [Error] gives the verdict ERROR; the
    message carries the error's own message and there is no actual value. *)
Lemma invocation_failure_is_reported : forall implementation t opFunc description,
  truthy_string (skip (test t)) = false ->
  implementation (op (test t)) = Some opFunc ->
  opFunc (input (test t)) = Throw (ErrorObject description) ->
  runTest NumberToString TypeErrorMessage implementation t =
  ([(op (test t), input (test t))],
   Normal (mkTestResult t ERROR (Some ("Exception: " ++ description)) None)).
Proof.
  intros implementation t opFunc description Hs Hi Ho.
  unfold runTest, runTest_try. rewrite Hs, Hi, Ho. reflexivity.
Qed.

(** The only exceptions that [compare] raises are outside the reach of
    [runTest], which checks the tolerance first. *)
Lemma compare_returns : forall actual expected mode tolerance,
  CompareMode_eqb mode Approx
    && match tolerance with None => true | Some _ => false end = false ->
  exists matches,
    compare NumberToString TypeErrorMessage actual expected mode tolerance = Normal matches.
Proof.
  intros actual expected [| |] [tol|] H; try discriminate H; cbn [compare]; eauto.
Qed.

(** An [Error] and a thrown primitive other than [null] and [undefined] have
    a message text. *)
Lemma exception_text_of_error : forall description,
  exception_text NumberToString TypeErrorMessage (ErrorObject description)
  = Normal description.
Proof. reflexivity. Qed.

(** Unless the message of the exception that the operation throws has no
    text, [runTest] returns a verdict. *)
Lemma runTest_returns : forall implementation t,
  (forall opFunc e,
     implementation (op (test t)) = Some opFunc ->
     opFunc (input (test t)) = Throw e ->
     exists text, exception_text NumberToString TypeErrorMessage e = Normal text) ->
  exists calls result,
    runTest NumberToString TypeErrorMessage implementation t = (calls, Normal result).
Proof.
  intros implementation t Hsafe. unfold runTest.
  destruct (truthy_string (skip (test t))) eqn:Hs; [eauto|].
  unfold runTest_try.
  destruct (implementation (op (test t))) as [opFunc|] eqn:Hi; [|cbn; eauto].
  destruct (opFunc (input (test t))) as [actual|e] eqn:Ho; cbn [bind try_catch].
  - destruct (hasSpecialValues actual); [cbn; eauto|].
    destruct (CompareMode_eqb (resolvedCompare t) Approx && _) eqn:E; [cbn; eauto|].
    destruct (compare_returns actual (expected (test t)) _ _ E) as [matches ->].
    cbn. eauto.
  - destruct (Hsafe opFunc e eq_refl Ho) as [text ->]. cbn. eauto.
Qed.

(** When every case gets a verdict, the run returns one verdict per case,
    in order. *)
Lemma run_loop_returns : forall implementation flatTests results,
  Forall (fun t => exists calls result,
            runTest NumberToString TypeErrorMessage implementation t
            = (calls, Normal result)) flatTests ->
  exists calls out,
    run_loop NumberToString TypeErrorMessage implementation flatTests results
    = (calls, Normal (results ++ out)%list)
    /\ List.length out = List.length flatTests
    /\ map result_test out = flatTests.
Proof.
  intros implementation flatTests. induction flatTests as [|t rest IH]; intros results H.
  - exists [], []. cbn. now rewrite app_nil_r.
  - inversion H as [|t' rest' [calls [r Hr]] Hrest]; subst.
    cbn [run_loop]. rewrite Hr.
    destruct (IH (results ++ [r])%list Hrest) as [calls' [out [E [Hl Hm]]]].
    rewrite E. exists (calls ++ calls')%list, (r :: out). repeat split.
    + now rewrite <- app_assoc.
    + cbn. now rewrite Hl.
    + cbn [map]. f_equal; [|assumption].
      revert Hr. unfold runTest.
      destruct (truthy_string (skip (test t))); [now intros [= _ <-]|].
      unfold runTest_try.
      destruct (implementation (op (test t))) as [opFunc|]; [|now intros [= _ <-]].
      destruct (opFunc (input (test t))) as [actual|e]; cbn [bind try_catch].
      * destruct (hasSpecialValues actual); [now intros [= _ <-]|].
        destruct (CompareMode_eqb (resolvedCompare t) Approx && _); [now intros [= _ <-]|].
        destruct (compare _ _ _ _ _ _) as [m|e]; cbn [bind try_catch].
        -- now intros [= _ <-].
        -- destruct (exception_text NumberToString TypeErrorMessage e); cbn;
             [now intros [= _ <-]|discriminate].
      * destruct (exception_text NumberToString TypeErrorMessage e); cbn;
          [now intros [= _ <-]|discriminate].
Qed.

(** A thrown value that is not an [Error] has no [message]: its text is not
    in the verdict. *)
Lemma thrown_text_is_not_reported : forall implementation t opFunc text,
  truthy_string (skip (test t)) = false ->
  implementation (op (test t)) = Some opFunc ->
  opFunc (input (test t)) = Throw (ThrownValue (VStr text)) ->
  runTest NumberToString TypeErrorMessage implementation t =
  ([(op (test t), input (test t))],
   Normal (mkTestResult t ERROR (Some "Exception: undefined") None)).
Proof.
  intros implementation t opFunc text Hs Hi Ho.
  unfold runTest, runTest_try. rewrite Hs, Hi, Ho. reflexivity.
Qed.

(** C9 at its failing input.  When the operation of a case throws [null]
    or [undefined], reading [error.message] in the [catch] block of
    [runTest] raises a [TypeError]: [runTest] returns no verdict, the
    exception leaves [run], and the cases after it are not evaluated. *)
Theorem thrown_null_leaves_the_engine : forall implementation t opFunc v rest results,
  truthy_string (skip (test t)) = false ->
  implementation (op (test t)) = Some opFunc ->
  opFunc (input (test t)) = Throw (ThrownValue v) ->
  is_nullish v = true ->
  runTest NumberToString TypeErrorMessage implementation t
  = ([(op (test t), input (test t))], Throw (TypeError TypeErrorMessage))
  /\ run_loop NumberToString TypeErrorMessage implementation (t :: rest) results
     = ([(op (test t), input (test t))], Throw (TypeError TypeErrorMessage)).
Proof.
  intros implementation t opFunc v rest results Hs Hi Ho Hv.
  assert (E : runTest NumberToString TypeErrorMessage implementation t
              = ([(op (test t), input (test t))], Throw (TypeError TypeErrorMessage))).
  { unfold runTest, runTest_try. rewrite Hs, Hi, Ho.
    destruct v; try discriminate Hv; reflexivity. }
  split; [exact E|]. cbn [run_loop]. now rewrite E.
Qed.

(** C10.  Two values of type object, neither [null], that are not both
    arrays are compared by [deepEqual] through their sorted keys and the
    values under them, whether they are arrays or plain objects; the array
    [[1, 2]] is thus deep-equal to the object with keys 0 and 1 and the same
    values, which strict mode tells apart. *)
Theorem deep_equates_array_and_object :
  (forall a b,
     typeof a = TObject -> typeof b = TObject ->
     is_null a = false -> is_null b = false ->
     isArray a && isArray b = false ->
     deepEqual a b
     = negb (keys_differ (sort (Object_keys a)) (sort (Object_keys b)))
       && every (fun key => deepEqual (get a key) (get b key)) (sort (Object_keys a)))
  /\ deepEqual (VArr [VNum 1; VNum 2]) (VObj [("0", VNum 1); ("1", VNum 2)]) = true
  /\ compare NumberToString TypeErrorMessage
       (VArr [VNum 1; VNum 2]) (VObj [("0", VNum 1); ("1", VNum 2)]) Deep None
     = Normal true
  /\ compare NumberToString TypeErrorMessage
       (VArr [VNum 1; VNum 2]) (VObj [("0", VNum 1); ("1", VNum 2)]) Strict None
     = Normal false.
Proof.
  split; [exact deepEqual_by_keys|repeat split; vm_compute; reflexivity].
Qed.

End EngineFailures.

(* ================================================================= *)
(** ** Sorting the keys *)

Lemma ascii_compare_refl : forall a, Ascii.compare a a = Eq.
Proof. intros a. unfold Ascii.compare. apply N.compare_refl. Qed.

Lemma string_leb_trans : forall a b c,
  String.leb a b = true -> String.leb b c = true -> String.leb a c = true.
Proof.
  unfold String.leb.
  induction a as [|x a IH]; intros [|y b] [|z c]; cbn [String.compare]; try easy.
  destruct (Ascii.compare x y) eqn:E1; try easy;
    destruct (Ascii.compare y z) eqn:E2; try easy;
    try (apply Ascii.compare_eq_iff in E1; subst);
    try (apply Ascii.compare_eq_iff in E2; subst);
    rewrite ?ascii_compare_refl, ?E1, ?E2; try easy.
  - apply IH.
  - intros _ _. unfold Ascii.compare in *.
    rewrite N.compare_lt_iff in E1, E2.
    destruct (N.compare_spec (N_of_ascii x) (N_of_ascii z)); try easy; lia.
Qed.

Lemma string_leb_false : forall a b, String.leb a b = false -> String.leb b a = true.
Proof. intros a b H. destruct (String.leb_total a b) as [E|E]; congruence. Qed.

Lemma insert_sorted_comm : forall x y l,
  insert_sorted x (insert_sorted y l) = insert_sorted y (insert_sorted x l).
Proof.
  intros x y l. induction l as [|z l IH]; cbn [insert_sorted].
  - destruct (String.leb x y) eqn:Exy, (String.leb y x) eqn:Eyx; try reflexivity.
    + now rewrite (String.leb_antisym _ _ Exy Eyx).
    + apply string_leb_false in Exy. congruence.
  - destruct (String.leb y z) eqn:Eyz, (String.leb x z) eqn:Exz; cbn [insert_sorted];
      rewrite ?Eyz, ?Exz.
    + destruct (String.leb x y) eqn:Exy, (String.leb y x) eqn:Eyx; try reflexivity.
      * now rewrite (String.leb_antisym _ _ Exy Eyx).
      * apply string_leb_false in Exy. congruence.
    + destruct (String.leb x y) eqn:Exy; [|reflexivity].
      rewrite (string_leb_trans _ _ _ Exy Eyz) in Exz. discriminate.
    + destruct (String.leb y x) eqn:Eyx; [|reflexivity].
      rewrite (string_leb_trans _ _ _ Eyx Exz) in Eyz. discriminate.
    + now rewrite IH.
Qed.

(** Sorting forgets the order of its input. *)
Lemma sort_Permutation : forall l l', Permutation l l' -> sort l = sort l'.
Proof.
  induction 1; cbn [sort]; try congruence. apply insert_sorted_comm.
Qed.

Lemma insert_sorted_perm : forall k l, Permutation (k :: l) (insert_sorted k l).
Proof.
  intros k l. induction l as [|x l IH]; cbn [insert_sorted]; [reflexivity|].
  destruct (String.leb k x); [reflexivity|].
  rewrite perm_swap. now apply perm_skip.
Qed.

Lemma sort_perm : forall l, Permutation l (sort l).
Proof.
  induction l as [|k l IH]; cbn [sort]; [reflexivity|].
  rewrite <- insert_sorted_perm. now apply perm_skip.
Qed.

Lemma same_keys_from : forall ka kb pre,
  every_from (same_keys_at (pre ++ kb)) (List.length pre) ka = true ->
  List.length ka = List.length kb -> ka = kb.
Proof.
  induction ka as [|k ka IH]; intros [|k' kb] pre H Hl; try discriminate Hl; [reflexivity|].
  cbn [every_from] in H. unfold same_keys_at at 1 in H.
  rewrite nth_error_app2, Nat.sub_diag in H by lia. cbn [nth_error] in H.
  destruct (String.eqb k k') eqn:E; [|discriminate]. apply String.eqb_eq in E. subst k'.
  f_equal. apply (IH kb (pre ++ [k])%list).
  - rewrite <- app_assoc, length_app. cbn [List.length app].
    now rewrite Nat.add_1_r.
  - now injection Hl.
Qed.

Lemma same_keys_refl : forall ka pre,
  every_from (same_keys_at (pre ++ ka)) (List.length pre) ka = true.
Proof.
  induction ka as [|k ka IH]; intros pre; [reflexivity|].
  cbn [every_from]. unfold same_keys_at at 1.
  rewrite nth_error_app2, Nat.sub_diag by lia. cbn [nth_error].
  rewrite String.eqb_refl.
  specialize (IH (pre ++ [k])%list).
  rewrite <- app_assoc, length_app in IH. cbn [List.length app] in IH.
  now rewrite Nat.add_1_r in IH.
Qed.

(** The test on the two sorted key arrays is their equality. *)
Lemma keys_differ_false : forall ka kb, keys_differ ka kb = false <-> ka = kb.
Proof.
  intros ka kb. unfold keys_differ, every_idx. split.
  - intros H. apply orb_false_elim in H. destruct H as [Hl He].
    apply negb_false_iff in Hl, He. apply Nat.eqb_eq in Hl.
    now apply (same_keys_from ka kb []).
  - intros <-. rewrite Nat.eqb_refl. cbn [negb orb].
    pose proof (same_keys_refl ka []) as R. cbn [app List.length] in R. now rewrite R.
Qed.

Lemma every_from_true : forall (A : Type) (f : A -> bool) l i,
  every_from (fun x _ => f x) i l = true <-> (forall x, In x l -> f x = true).
Proof.
  intros A f l. induction l as [|x l IH]; intros i; cbn [every_from].
  - split; [intros _ y []|reflexivity].
  - destruct (f x) eqn:E.
    + rewrite IH. split.
      * intros H y [<-|Hy]; auto.
      * intros H y Hy. apply H. now right.
    + split; [discriminate|]. intros H. rewrite <- E. apply H. now left.
Qed.

Lemma every_true : forall (A : Type) (f : A -> bool) l,
  every f l = true <-> (forall x, In x l -> f x = true).
Proof. intros. apply every_from_true. Qed.

(** Sorted key arrays agree exactly when the objects have the same keys. *)
Lemma sorted_keys_agree : forall ka kb,
  NoDup ka -> NoDup kb ->
  (sort ka = sort kb <-> (forall k, In k ka <-> In k kb)).
Proof.
  intros ka kb Ha Hb. split.
  - intros E k.
    assert (P : Permutation ka kb).
    { rewrite (sort_perm ka), E. symmetry. apply sort_perm. }
    split; [apply (Permutation_in _ P)|apply (Permutation_in _ (Permutation_sym P))].
  - intros H. apply sort_Permutation. now apply NoDup_Permutation.
Qed.

Lemma assoc_of_In : forall (A : Type) key v (l : list (string * A)),
  NoDup (map fst l) -> In (key, v) l -> assoc key l = Some v.
Proof.
  intros A key v l. induction l as [|[k x] l IH]; intros Hnd Hin; [contradiction|].
  cbn [map fst] in Hnd. inversion Hnd as [|k' ks Hk Hnd']; subst.
  cbn [assoc]. destruct Hin as [[= -> ->]|Hin].
  - now rewrite String.eqb_refl.
  - destruct (String.eqb k key) eqn:E; [|auto].
    apply String.eqb_eq in E. subst k. exfalso. apply Hk.
    apply in_map_iff. exists (key, v). auto.
Qed.

(** An object read by key does not depend on the order of its properties. *)
Lemma assoc_Permutation : forall (A : Type) key (l l' : list (string * A)),
  NoDup (map fst l) -> Permutation l l' -> assoc key l' = assoc key l.
Proof.
  intros A key l l' Hnd P.
  assert (Hnd' : NoDup (map fst l')).
  { eapply Permutation_NoDup; [apply Permutation_map; exact P|assumption]. }
  destruct (assoc key l) as [v|] eqn:E.
  - apply assoc_of_In; [assumption|]. apply (Permutation_in _ P). now apply assoc_In.
  - destruct (assoc key l') as [v|] eqn:E'; [|reflexivity].
    apply assoc_In in E'. apply (Permutation_in _ (Permutation_sym P)) in E'.
    rewrite (assoc_of_In _ _ _ _ Hnd E') in E. discriminate.
Qed.

(* ================================================================= *)
(** ** Key order *)

Section KeyOrder.

(** Two objects with the same properties, listed in different orders. *)
Variables pa pa' : list (string * Value).
Hypothesis distinct_keys : NoDup (map fst pa).
Hypothesis reordered : Permutation pa pa'.

Lemma reordered_keys : sort (map fst pa') = sort (map fst pa).
Proof. apply sort_Permutation. apply Permutation_map. now symmetry. Qed.

Lemma reordered_get : forall key, get (VObj pa') key = get (VObj pa) key.
Proof. intros key. cbn [get]. now rewrite (assoc_Permutation _ key pa pa'). Qed.

Ltac same_branches :=
  repeat match goal with
         | |- (if ?c then _ else _) = (if ?c then _ else _) => destruct c; try reflexivity
         end.

Ltac same_fields :=
  apply every_ext; intros key _; rewrite ?reordered_get; reflexivity.

Lemma deepEqual_reordered_left : forall b, deepEqual (VObj pa') b = deepEqual (VObj pa) b.
Proof.
  intros b. rewrite !deepEqual_unfold. unfold deepEqual_body.
  cbn [strict_equals is_nullish orb typeof isArray andb Object_keys JsType_eqb].
  rewrite reordered_keys. same_branches. same_fields.
Qed.

Lemma deepEqual_reordered_right : forall b, deepEqual b (VObj pa') = deepEqual b (VObj pa).
Proof.
  intros b. rewrite !deepEqual_unfold. unfold deepEqual_body.
  destruct b; try reflexivity;
    cbn [strict_equals is_nullish orb typeof isArray andb Object_keys JsType_eqb negb];
    rewrite reordered_keys; same_branches; same_fields.
Qed.

Lemma approxEqualWithAbsTolerance_reordered : forall b t,
  approxEqualWithAbsTolerance (VObj pa') b t = approxEqualWithAbsTolerance (VObj pa) b t
  /\ approxEqualWithAbsTolerance b (VObj pa') t = approxEqualWithAbsTolerance b (VObj pa) t.
Proof.
  intros b t. rewrite !approxEqualWithAbsTolerance_unfold.
  unfold approxEqualWithAbsTolerance_body, both_objects.
  split.
  - cbn [typeof JsType_eqb is_null negb andb Object_keys]. rewrite reordered_keys.
    same_branches; [same_fields|apply deepEqual_reordered_left].
  - destruct b; try apply deepEqual_reordered_right;
      cbn [typeof JsType_eqb is_null negb andb Object_keys]; rewrite reordered_keys;
      same_branches; same_fields.
Qed.

Lemma approxEqual_reordered : forall b t,
  approxEqual (VObj pa') b t = approxEqual (VObj pa) b t
  /\ approxEqual b (VObj pa') t = approxEqual b (VObj pa) t.
Proof.
  intros b t. rewrite !approxEqual_unfold. unfold approxEqual_body, both_objects.
  destruct t as [t|abs rel fields]; [apply approxEqualWithAbsTolerance_reordered|].
  split.
  - cbn [typeof JsType_eqb is_null negb andb Object_keys]. rewrite reordered_keys.
    same_branches; [same_fields|apply deepEqual_reordered_left].
  - destruct b; try apply deepEqual_reordered_right;
      cbn [typeof JsType_eqb is_null negb andb Object_keys]; rewrite reordered_keys;
      same_branches; same_fields.
Qed.

End KeyOrder.

(** Two objects with pairwise distinct keys are deep-equal exactly when they
    have the same keys and deep-equal values under each key. *)
Lemma deepEqual_objects : forall pa pb,
  NoDup (map fst pa) -> NoDup (map fst pb) ->
  (deepEqual (VObj pa) (VObj pb) = true
   <-> (forall k, In k (map fst pa) <-> In k (map fst pb))
       /\ (forall k, In k (map fst pa) ->
             deepEqual (get (VObj pa) k) (get (VObj pb) k) = true)).
Proof.
  intros pa pb Ha Hb.
  rewrite (deepEqual_by_keys (VObj pa) (VObj pb)) by reflexivity.
  cbn [Object_keys]. rewrite andb_true_iff, negb_true_iff, keys_differ_false.
  rewrite (sorted_keys_agree _ _ Ha Hb), every_true.
  split; intros [Hk Hv]; (split; [exact Hk|]); intros k Hin; apply Hv.
  - apply (Permutation_in _ (sort_perm _)). exact Hin.
  - apply (Permutation_in _ (Permutation_sym (sort_perm _))). exact Hin.
Qed.


(* ================================================================= *)
(** ** The properties on the example cases *)

Lemma every_present_bound_required_witness :
  approxEqual (VNum 1) (VNum 1.25) (TolObject (Some 0.5%float) (Some 0.25%float) None) = true.
Proof.
  apply (proj2 (every_present_bound_required 1 1.25 (Some 0.5%float) (Some 0.25%float) None)).
  split; intros ? [= <-]; vm_compute; reflexivity.
Defined.

Lemma default_inheritance_witness :
  In inherited_case (flattenGroups [outer_group] [] root_defaults)
  /\ exists chain,
       ancestry [outer_group] chain (test inherited_case)
       /\ inherits root_defaults inherited_case (chain, test inherited_case).
Proof.
  split; [left; reflexivity|].
  apply (proj2 (default_inheritance [outer_group] [] root_defaults) inherited_case).
  left; reflexivity.
Defined.

(** C5, as stated, fails on a [skip] that is present and empty: the case is
    evaluated, and with its operation missing the verdict is ERROR. *)
Lemma empty_skip_reason_is_not_skipped :
  skip (test empty_skip_case) = Some ""
  /\ runTest integer_text engine_type_error no_operations empty_skip_case
     = ([], Normal (mkTestResult empty_skip_case ERROR
                      (Some "Operation 'hsl_to_rgb' not found in implementation") None)).
Proof. split; reflexivity. Qed.

Lemma skip_takes_precedence_witness :
  skip (test skipped_case) = Some "not implemented yet"
  /\ "not implemented yet" <> ""
  /\ runTest integer_text engine_type_error no_operations skipped_case
     = ([], Normal (mkTestResult skipped_case SKIP (Some "not implemented yet") None)).
Proof.
  split; [reflexivity|]. split; [discriminate|].
  apply (skip_takes_precedence integer_text engine_type_error no_operations skipped_case).
  - reflexivity.
  - discriminate.
Defined.

Lemma special_values_rejected_witness :
  deepEqual (VObj [("result", VNum infinity)]) (expected (test division_by_zero_case)) = true
  /\ runTest integer_text engine_type_error sample_operations division_by_zero_case
     = ([("divide", VObj [("a", VNum 1); ("b", VNum 0)])],
        Normal (mkTestResult division_by_zero_case ERROR (Some special_value_message)
                  (Some (VObj [("result", VNum infinity)])))).
Proof.
  split; [vm_compute; reflexivity|].
  refine (special_values_rejected integer_text engine_type_error sample_operations
            division_by_zero_case _ (VObj [("result", VNum infinity)]) infinity
            eq_refl eq_refl eq_refl _ eq_refl).
  eapply occurs_property; [left; reflexivity|constructor].
Defined.

Lemma approx_requires_tolerance_witness :
  strict_equals (VNum 1) (VNum 1) = true
  /\ runTest integer_text engine_type_error sample_operations approx_without_tolerance_case
     = ([("same", VObj [("x", VNum 1)])],
        Normal (mkTestResult approx_without_tolerance_case ERROR
                  (Some tolerance_required_message) None)).
Proof.
  split; [reflexivity|].
  refine (approx_requires_tolerance integer_text engine_type_error sample_operations
            approx_without_tolerance_case _ (VObj [("x", VNum 1)])
            eq_refl eq_refl eq_refl _ eq_refl eq_refl).
  intros n H. inversion H as [|l v Hv Ho|ps k v Hv Ho]; subst.
  destruct Hv as [[= <- <-]|[]]. inversion Ho; subst. reflexivity.
Defined.

Lemma thrown_null_leaves_the_engine_witness :
  runTest integer_text engine_type_error sample_operations boom_case
  = ([("boom", VNull)], Throw (TypeError engine_type_error))
  /\ run_loop integer_text engine_type_error sample_operations
       [boom_case; after_boom_case] []
     = ([("boom", VNull)], Throw (TypeError engine_type_error)).
Proof.
  exact (thrown_null_leaves_the_engine integer_text engine_type_error sample_operations
           boom_case _ VNull [after_boom_case] [] eq_refl eq_refl eq_refl eq_refl).
Defined.

Lemma deep_equates_array_and_object_witness :
  deepEqual (VArr [VNum 1; VNum 2]) (VObj [("0", VNum 1); ("1", VNum 2)])
  = negb (keys_differ (sort (Object_keys (VArr [VNum 1; VNum 2])))
            (sort (Object_keys (VObj [("0", VNum 1); ("1", VNum 2)]))))
    && every (fun key => deepEqual (get (VArr [VNum 1; VNum 2]) key)
                           (get (VObj [("0", VNum 1); ("1", VNum 2)]) key))
             (sort (Object_keys (VArr [VNum 1; VNum 2]))).
Proof.
  exact (proj1 (deep_equates_array_and_object integer_text engine_type_error)
           (VArr [VNum 1; VNum 2]) (VObj [("0", VNum 1); ("1", VNum 2)])
           eq_refl eq_refl eq_refl eq_refl eq_refl).
Defined.

(** The example implementation's unimplemented operation: the thrown error
    becomes an ERROR verdict with the error's message. *)
Example invocation_failure_example :
  runTest integer_text engine_type_error sample_operations failing_case
  = ([("fail", VNull)],
     Normal (mkTestResult failing_case ERROR
               (Some "Exception: HSL conversion not implemented") None)).
Proof. reflexivity. Qed.

(* ================================================================= *)
(** * Further properties *)

(** ** The flattener: nothing is lost, nothing is added *)

Lemma ancestry_cases : forall groups chain t,
  ancestry groups chain t -> In (chain, t) (cases groups).
Proof.
  intros groups chain t H. induction H as [groups g t Hg Ht|groups g chain t Hg _ IH].
  - unfold cases. apply in_flat_map. exists g. split; [assumption|].
    rewrite group_cases_eq. apply in_or_app. right.
    apply in_map_iff. exists t. auto.
  - unfold cases. apply in_flat_map. exists g. split; [assumption|].
    rewrite group_cases_eq. apply in_or_app. left.
    apply in_map_iff. exists (chain, t). auto.
Qed.

(** X1.  No test is lost: a test that lies in the tree under a chain of
    ancestor groups has its resolved case, with that chain's names as path
    and that chain's inherited mode and tolerance, in the output of the
    flattener. *)
Theorem flattening_is_complete : forall groups path root chain t,
  ancestry groups chain t ->
  In (mkFlatTest t (path ++ map group_name chain)%list
        (effective_compare root chain t) (effective_tolerance root chain t))
     (flattenGroups groups path root).
Proof.
  intros groups path root chain t H. rewrite flattenGroups_cases.
  apply in_map_iff. exists (chain, t). split; [reflexivity|now apply ancestry_cases].
Qed.

Lemma tests_of_group_eq : forall g,
  tests_of_group g = tests_of (subgroups g) + List.length (direct_tests g).
Proof. intros [name desc dfl [gs|] [ts|]]; reflexivity. Qed.

Lemma cases_length : forall groups, List.length (cases groups) = tests_of groups.
Proof.
  assert (G : forall g, List.length (group_cases g) = tests_of_group g).
  { induction g as [g IH] using Group_tree_ind.
    rewrite group_cases_eq, tests_of_group_eq, length_app, !length_map. f_equal.
    induction IH as [|x l Hx _ IHl]; [reflexivity|].
    unfold cases, tests_of in *. cbn [flat_map fold_right].
    now rewrite length_app, Hx, IHl. }
  induction groups as [|g gs IH]; [reflexivity|].
  unfold cases, tests_of in *. cbn [flat_map fold_right].
  now rewrite length_app, G, IH.
Qed.

(** X2.  The flattener produces exactly one resolved case per test of the
    tree, whatever the starting path and the inherited defaults; groups
    without tests, at any depth, contribute nothing. *)
Theorem one_case_per_test : forall groups path root,
  List.length (flattenGroups groups path root) = tests_of groups.
Proof.
  intros groups path root. rewrite flattenGroups_cases, length_map. apply cases_length.
Qed.

(** X3.  Sibling groups are flattened independently: the output for two
    lists of groups one after the other is the output for the first followed
    by the output for the second. *)
Theorem flattening_distributes : forall groups groups' path root,
  flattenGroups (groups ++ groups') path root
  = (flattenGroups groups path root ++ flattenGroups groups' path root)%list.
Proof.
  intros groups groups' path root. unfold flattenGroups at 1.
  rewrite fold_left_app. fold (flattenGroups groups path root).
  apply flattenGroups_acc.
Qed.

(* ================================================================= *)
(** ** The evaluator: verdicts *)

Section Verdicts.

Variable NumberToString : float -> string.
Variable TypeErrorMessage : string.

(** X4.  Missing operation.  A case that is not skipped and whose operation
    is not in the implementation gets the verdict ERROR, with a message that
    names the operation and no actual value; nothing is invoked. *)
Theorem missing_operation_is_an_error : forall implementation t,
  truthy_string (skip (test t)) = false ->
  implementation (op (test t)) = None ->
  runTest NumberToString TypeErrorMessage implementation t
  = ([], Normal (mkTestResult t ERROR
                   (Some ("Operation '" ++ op (test t) ++ "' not found in implementation"))
                   None)).
Proof.
  intros implementation t Hs Hi. unfold runTest, runTest_try. now rewrite Hs, Hi.
Qed.

(** X5.  The verdict of a comparison, and xfail.  When the operation of a
    case returns an output without special values and the comparison with
    the expected value gives [matches], the verdict is PASS when [matches]
    holds and FAIL otherwise, and the other way round when [xfail] is true;
    a FAIL verdict carries a message with the JSON texts of the expected and
    the actual value, a PASS verdict carries no message, and both carry the
    output. *)
Theorem xfail_inverts_the_verdict : forall implementation t opFunc actual matches,
  truthy_string (skip (test t)) = false ->
  implementation (op (test t)) = Some opFunc ->
  opFunc (input (test t)) = Normal actual ->
  hasSpecialValues actual = false ->
  compare NumberToString TypeErrorMessage actual (expected (test t))
    (resolvedCompare t) (resolvedTolerance t) = Normal matches ->
  let passes := if truthy_bool (xfail (test t)) then negb matches else matches in
  runTest NumberToString TypeErrorMessage implementation t
  = ([(op (test t), input (test t))],
     Normal (mkTestResult t
               (if passes then PASS else FAIL)
               (if passes then None
                else Some ("Expected "
                           ++ text_or_undefined
                                (JSON_stringify NumberToString (expected (test t)))
                           ++ ", got "
                           ++ text_or_undefined (JSON_stringify NumberToString actual)))
               (Some actual))).
Proof.
  intros implementation t opFunc actual matches Hs Hi Ho Hf Hc passes.
  rewrite (runTest_returned _ _ _ _ _ _ Hs Hi Ho), Hf.
  assert (E : CompareMode_eqb (resolvedCompare t) Approx
              && match resolvedTolerance t with None => true | Some _ => false end = false).
  { destruct (resolvedCompare t), (resolvedTolerance t); try reflexivity.
    cbn [compare] in Hc. discriminate. }
  rewrite E, Hc. unfold passes.
  destruct (truthy_bool (xfail (test t))), matches; reflexivity.
Qed.


(** The verdicts that [runTest] can return. *)
Lemma runTest_verdict : forall implementation t calls r,
  runTest NumberToString TypeErrorMessage implementation t = (calls, Normal r) ->
  result_test r = t
  /\ match status r with
     | SKIP =>
         truthy_string (skip (test t)) = true
         /\ message r = skip (test t) /\ actual r = None
     | PASS => message r = None /\ exists v, actual r = Some v
     | FAIL => (exists m, message r = Some m) /\ exists v, actual r = Some v
     | ERROR => exists m, message r = Some m /\ m <> ""
     end.
Proof.
  intros implementation t calls r. unfold runTest.
  destruct (truthy_string (skip (test t))) eqn:Hs.
  { intros [= _ <-]. cbn. auto. }
  unfold runTest_try.
  destruct (implementation (op (test t))) as [opFunc|].
  2:{ intros [= _ <-]. cbn. split; [reflexivity|]. eexists. split; [reflexivity|discriminate]. }
  destruct (opFunc (input (test t))) as [v|e]; cbn [bind try_catch].
  - destruct (hasSpecialValues v).
    { intros [= _ <-]. cbn. split; [reflexivity|].
      eexists. split; [reflexivity|discriminate]. }
    destruct (CompareMode_eqb (resolvedCompare t) Approx && _).
    { intros [= _ <-]. cbn. split; [reflexivity|].
      eexists. split; [reflexivity|discriminate]. }
    destruct (compare _ _ _ _ _ _) as [m|e]; cbn [bind try_catch].
    + intros [= _ <-]. cbn. split; [reflexivity|].
      destruct (truthy_bool (xfail (test t))), m; cbn; eauto.
    + destruct (exception_text NumberToString TypeErrorMessage e); cbn; [|discriminate].
      intros [= _ <-]. cbn. split; [reflexivity|].
      eexists. split; [reflexivity|discriminate].
  - destruct (exception_text NumberToString TypeErrorMessage e); cbn; [|discriminate].
    intros [= _ <-]. cbn. split; [reflexivity|].
    eexists. split; [reflexivity|discriminate].
Qed.

(** X6.  The shape of a verdict.  Whatever the implementation does, a
    verdict returned for a case refers to that case; a SKIP verdict is only
    given to a case with a non-empty skip reason, carries that reason and no
    actual value; a PASS verdict carries an actual value and no message; a
    FAIL verdict carries both; an ERROR verdict always carries a non-empty
    message. *)
Theorem verdict_shape : forall implementation t calls r,
  runTest NumberToString TypeErrorMessage implementation t = (calls, Normal r) ->
  result_test r = t
  /\ match status r with
     | SKIP =>
         truthy_string (skip (test t)) = true
         /\ message r = skip (test t) /\ actual r = None
     | PASS => message r = None /\ exists v, actual r = Some v
     | FAIL => (exists m, message r = Some m) /\ exists v, actual r = Some v
     | ERROR => exists m, message r = Some m /\ m <> ""
     end.
Proof. exact runTest_verdict. Qed.



(** X8.  A thrown value that is not an object.  When the operation of a case
    throws a value that is neither [null], [undefined] nor an object (a
    string, a number, a boolean, an array), the verdict is ERROR and its
    message is the text [Exception: undefined]: the thrown value itself is
    not reported. *)
Theorem thrown_value_is_not_reported : forall implementation t opFunc v,
  truthy_string (skip (test t)) = false ->
  implementation (op (test t)) = Some opFunc ->
  opFunc (input (test t)) = Throw (ThrownValue v) ->
  is_nullish v = false ->
  (forall ps, v <> VObj ps) ->
  runTest NumberToString TypeErrorMessage implementation t =
  ([(op (test t), input (test t))],
   Normal (mkTestResult t ERROR (Some "Exception: undefined") None)).
Proof.
  intros implementation t opFunc v Hs Hi Ho Hn Hobj.
  unfold runTest, runTest_try. rewrite Hs, Hi, Ho.
  destruct v; try discriminate Hn; try reflexivity.
  now destruct (Hobj properties).
Qed.

Lemma run_loop_verdicts : forall implementation flatTests results,
  Forall (fun t => exists calls result,
            runTest NumberToString TypeErrorMessage implementation t
            = (calls, Normal result)) flatTests ->
  exists calls out,
    run_loop NumberToString TypeErrorMessage implementation flatTests results
    = (calls, Normal (results ++ out)%list)
    /\ Forall2 (fun t r => exists c,
                  runTest NumberToString TypeErrorMessage implementation t = (c, Normal r))
               flatTests out.
Proof.
  intros implementation flatTests. induction flatTests as [|t rest IH]; intros results H.
  - exists [], []. cbn. rewrite app_nil_r. split; [reflexivity|constructor].
  - inversion H as [|t' rest' [calls [r Hr]] Hrest]; subst.
    cbn [run_loop]. rewrite Hr.
    destruct (IH (results ++ [r])%list Hrest) as [calls' [out [E F]]].
    rewrite E. exists (calls ++ calls')%list, (r :: out). split.
    + now rewrite <- app_assoc.
    + constructor; [eauto|assumption].
Qed.

(** X9.  One verdict per case.  When every exception that an operation
    throws on the input of its case has a message text (as an [Error] has,
    and a thrown string, number or boolean), a run returns one verdict for
    each resolved case, in the order of the flattener, and the verdict of a
    case is the one [runTest] gives to that case alone: it does not depend on
    the other cases. *)
Theorem run_gives_one_verdict_per_case : forall implementation spec,
  (forall t opFunc e,
     In t (flattenGroups (spec_groups spec) [] (spec_defaults spec)) ->
     implementation (op (test t)) = Some opFunc ->
     opFunc (input (test t)) = Throw e ->
     exists text, exception_text NumberToString TypeErrorMessage e = Normal text) ->
  exists calls results,
    run NumberToString TypeErrorMessage implementation spec = (calls, Normal results)
    /\ Forall2 (fun t r => exists c,
                  runTest NumberToString TypeErrorMessage implementation t = (c, Normal r))
               (flattenGroups (spec_groups spec) [] (spec_defaults spec)) results.
Proof.
  intros implementation spec Hsafe. unfold run.
  destruct (run_loop_verdicts implementation
              (flattenGroups (spec_groups spec) [] (spec_defaults spec)) [])
    as [calls [out [E F]]].
  - apply Forall_forall. intros t Hin.
    apply runTest_returns. intros opFunc e Hi Ho. eapply Hsafe; eauto.
  - exists calls, out. split; [exact E|exact F].
Qed.

End Verdicts.

(* ================================================================= *)
(** ** The comparator: deep equality *)

Lemma deepEqual_of_strict : forall a b, strict_equals a b = true -> deepEqual a b = true.
Proof.
  intros a b H. rewrite deepEqual_unfold. unfold deepEqual_body. now rewrite H.
Qed.

Lemma deepEqual_scalar : forall a b,
  is_container a = false \/ is_container b = false ->
  deepEqual a b = strict_equals a b.
Proof.
  intros a b H. rewrite deepEqual_unfold. unfold deepEqual_body.
  destruct (strict_equals a b) eqn:E; [reflexivity|].
  destruct H as [H|H].
  - destruct a; try discriminate H; try reflexivity; destruct b; reflexivity.
  - destruct b; try discriminate H; destruct a; reflexivity.
Qed.

(** X10.  No coercion.  When one of two values is not an array or an object,
    they are deep-equal exactly when they are strictly equal: primitives of
    the same type with the same value.  In particular a number is never
    deep-equal to a string or a boolean, [null] is not deep-equal to
    [undefined], and NaN is not deep-equal to itself. *)
Theorem deepEqual_primitives : forall a b,
  is_container a = false \/ is_container b = false ->
  (deepEqual a b = true <-> strict_equals a b = true).
Proof. intros a b H. now rewrite (deepEqual_scalar a b H). Qed.

Lemma every_from_nth : forall (A : Type) (f : A -> A -> bool) (d : A) l l' pre,
  List.length l = List.length l' ->
  (every_from (fun val idx => f val (nth idx (pre ++ l') d)) (List.length pre) l = true
   <-> Forall2 (fun x y => f x y = true) l l').
Proof.
  intros A f d l. induction l as [|x l IH]; intros [|y l'] pre Hl; try discriminate Hl.
  - cbn. split; [constructor|reflexivity].
  - cbn [every_from]. rewrite app_nth2, Nat.sub_diag by lia. cbn [nth].
    specialize (IH l' (pre ++ [y])%list).
    rewrite <- app_assoc, length_app in IH. cbn [app List.length] in IH.
    rewrite Nat.add_1_r in IH.
    destruct (f x y) eqn:E.
    + rewrite IH by (now injection Hl). split.
      * intros H. now constructor.
      * intros H. now inversion H.
    + split; [discriminate|]. intros H. inversion H. congruence.
Qed.

Lemma deepEqual_arrays_iff : forall l l',
  deepEqual (VArr l) (VArr l') = true
  <-> Forall2 (fun x y => deepEqual x y = true) l l'.
Proof.
  intros l l'. rewrite deepEqual_unfold. unfold deepEqual_body.
  cbn [strict_equals is_nullish orb typeof JsType_eqb negb isArray andb array_length
       Object_values get_index].
  destruct (Nat.eqb (List.length l) (List.length l')) eqn:E; cbn [negb].
  - apply Nat.eqb_eq in E. unfold every_idx.
    apply (every_from_nth Value deepEqual VUndefined l l' [] E).
  - apply Nat.eqb_neq in E. split; [discriminate|].
    intros H. apply Forall2_length in H. contradiction.
Qed.

(** X11.  Arrays.  Two arrays are deep-equal exactly when they have the same
    length and their elements are deep-equal position by position. *)
Theorem deepEqual_arrays : forall l l',
  deepEqual (VArr l) (VArr l') = true
  <-> List.length l = List.length l'
      /\ forall i, i < List.length l ->
           deepEqual (nth i l VUndefined) (nth i l' VUndefined) = true.
Proof.
  intros l l'. rewrite deepEqual_arrays_iff. split.
  - intros H. split; [now apply Forall2_length in H|].
    intros i Hi. revert i Hi. induction H as [|x y l l' Hxy _ IH]; intros i Hi.
    + cbn in Hi. lia.
    + destruct i as [|i]; [exact Hxy|]. cbn [nth]. apply IH. cbn in Hi. lia.
  - intros [Hl H]. revert l' Hl H. induction l as [|x l IH]; intros [|y l'] Hl H;
      try discriminate Hl; constructor.
    + apply (H 0). cbn. lia.
    + apply IH; [now injection Hl|]. intros i Hi. apply (H (S i)). cbn. lia.
Qed.

Lemma occurs_in_get : forall a key n,
  occurs_in (VNum n) (get a key) -> occurs_in (VNum n) a.
Proof.
  intros a key n H. destruct a; cbn [get] in H; try (inversion H; fail).
  - destruct (element_at_key 0 key elements) as [v|] eqn:E; [|inversion H].
    apply element_at_key_In in E. eapply occurs_element; eauto.
  - destruct (assoc key properties) as [v|] eqn:E; [|inversion H].
    apply assoc_In in E. eapply occurs_property; eauto.
Qed.

Lemma every_from_all : forall (A : Type) (f : A -> nat -> bool) l i,
  (forall j x, nth_error l j = Some x -> f x (i + j) = true) -> every_from f i l = true.
Proof.
  intros A f l. induction l as [|x l IH]; intros i H; cbn [every_from]; [reflexivity|].
  rewrite <- (Nat.add_0_r i) at 1. rewrite (H 0 x eq_refl).
  apply IH. intros j y Hj. rewrite Nat.add_succ_comm. now apply (H (S j)).
Qed.

Lemma deepEqual_reflexive_depth : forall d v,
  depth v < d ->
  (forall n, occurs_in (VNum n) v -> PrimFloat.is_nan n = false) ->
  deepEqual v v = true.
Proof.
  induction d as [|d IH]; intros v Hd Hn; [lia|].
  destruct v as [| |b|n|s|l|ps].
  - reflexivity.
  - reflexivity.
  - apply deepEqual_of_strict. now destruct b.
  - apply deepEqual_of_strict. cbn [strict_equals].
    specialize (Hn n (occurs_here _)). unfold PrimFloat.is_nan in Hn.
    now apply negb_false_iff in Hn.
  - apply deepEqual_of_strict. apply String.eqb_refl.
  - rewrite deepEqual_unfold. unfold deepEqual_body.
    cbn [strict_equals is_nullish orb typeof JsType_eqb negb isArray andb array_length
         Object_values get_index].
    rewrite Nat.eqb_refl. cbn [negb]. apply every_from_all.
    intros j x Hj. cbn [Nat.add]. rewrite (nth_error_nth _ _ _ Hj).
    pose proof (nth_error_In _ _ Hj) as Hin. apply IH.
    + pose proof (depth_element l x Hin). lia.
    + intros n Ho. apply Hn. eapply occurs_element; eauto.
  - rewrite (deepEqual_by_keys (VObj ps) (VObj ps)) by reflexivity.
    rewrite (proj2 (keys_differ_false _ _) eq_refl). cbn [negb andb].
    apply every_true. intros key _. apply IH.
    + pose proof (depth_get (VObj ps) key eq_refl). lia.
    + intros n Ho. apply Hn. eapply occurs_in_get; eauto.
Qed.

(** X12.  Reflexivity.  A value in which NaN does not occur is deep-equal to
    itself (NaN is the one value that is not). *)
Theorem deepEqual_reflexive : forall v,
  (forall n, occurs_in (VNum n) v -> PrimFloat.is_nan n = false) ->
  deepEqual v v = true.
Proof. intros v. apply (deepEqual_reflexive_depth (S (depth v))). lia. Qed.

Lemma SFeqb_sym : forall f g, SFeqb f g = SFeqb g f.
Proof.
  intros f g. unfold SFeqb, SFcompare.
  destruct f as [s| s | |s m e], g as [s'|s'| |s' m' e'];
    try reflexivity; try (destruct s; reflexivity); try (destruct s'; reflexivity);
    try (destruct s, s'; reflexivity).
  destruct s, s'; try reflexivity;
    change (IntDef.Z.compare e e') with (Z.compare e e');
    change (IntDef.Z.compare e' e) with (Z.compare e' e);
    change (PosDef.Pos.compare_cont Eq m m') with (Pos.compare m m');
    change (PosDef.Pos.compare_cont Eq m' m) with (Pos.compare m' m);
    rewrite (Z.compare_antisym e e'), (Pos.compare_antisym m m');
    destruct (Z.compare e e'), (Pos.compare m m'); reflexivity.
Qed.

Lemma float_eqb_sym : forall x y, PrimFloat.eqb x y = PrimFloat.eqb y x.
Proof. intros x y. rewrite !eqb_spec. apply SFeqb_sym. Qed.

Lemma strict_equals_sym : forall a b, strict_equals a b = strict_equals b a.
Proof.
  intros a b. destruct a, b; try reflexivity; cbn [strict_equals].
  - now destruct b, b0.
  - apply float_eqb_sym.
  - apply String.eqb_sym.
Qed.

Lemma JsType_eqb_sym : forall s t, JsType_eqb s t = JsType_eqb t s.
Proof. intros [] []; reflexivity. Qed.

Lemma keys_differ_sym : forall ka kb, keys_differ ka kb = keys_differ kb ka.
Proof.
  intros ka kb. destruct (keys_differ ka kb) eqn:E, (keys_differ kb ka) eqn:E';
    try reflexivity.
  - apply keys_differ_false in E'. subst. rewrite (proj2 (keys_differ_false ka ka) eq_refl) in E.
    discriminate.
  - apply keys_differ_false in E. subst. rewrite (proj2 (keys_differ_false kb kb) eq_refl) in E'.
    discriminate.
Qed.

Lemma Forall2_flip_iff : forall (A : Type) (R S : A -> A -> Prop) l l',
  (forall x y, In x l -> In y l' -> (R x y <-> S y x)) ->
  (Forall2 R l l' <-> Forall2 S l' l).
Proof.
  intros A R S l. induction l as [|x l IH]; intros [|y l'] H.
  - split; constructor.
  - split; intros F; inversion F.
  - split; intros F; inversion F.
  - split; intros F; inversion F; subst; constructor.
    + apply H; [now left|now left|assumption].
    + apply (IH l'); [|assumption]. intros a b Ha Hb. apply H; now right.
    + apply H; [now left|now left|assumption].
    + apply (IH l'); [|assumption]. intros a b Ha Hb. apply H; now right.
Qed.

Lemma bool_eq_iff : forall b c : bool, (b = true <-> c = true) -> b = c.
Proof. intros [] [] [H H']; auto. symmetry. auto. Qed.

Lemma is_container_objects : forall a,
  is_container a = JsType_eqb (typeof a) TObject && negb (is_null a).
Proof. intros []; reflexivity. Qed.

Lemma deepEqual_symmetric_depth : forall d a b,
  depth a < d -> depth b < d -> deepEqual a b = deepEqual b a.
Proof.
  induction d as [|d IH]; intros a b Ha Hb; [lia|].
  destruct (is_container a) eqn:Ca; [destruct (is_container b) eqn:Cb|].
  - destruct a as [| | | | |l|pa]; try discriminate Ca;
      destruct b as [| | | | |l'|pb]; try discriminate Cb.
    + apply bool_eq_iff. rewrite !deepEqual_arrays_iff.
      apply Forall2_flip_iff. intros x y Hx Hy. rewrite (IH x y); [reflexivity| |].
      * pose proof (depth_element l x Hx). lia.
      * pose proof (depth_element l' y Hy). lia.
    + rewrite (deepEqual_by_keys (VArr l) (VObj pb)), (deepEqual_by_keys (VObj pb) (VArr l))
        by reflexivity.
      rewrite keys_differ_sym.
      destruct (keys_differ (sort (Object_keys (VObj pb))) (sort (Object_keys (VArr l))))
        eqn:E; [reflexivity|].
      apply keys_differ_false in E. rewrite E. cbn [negb andb].
      apply every_ext. intros key _. apply IH.
      * pose proof (depth_get (VArr l) key eq_refl). lia.
      * pose proof (depth_get (VObj pb) key eq_refl). lia.
    + rewrite (deepEqual_by_keys (VObj pa) (VArr l')), (deepEqual_by_keys (VArr l') (VObj pa))
        by reflexivity.
      rewrite keys_differ_sym.
      destruct (keys_differ (sort (Object_keys (VArr l'))) (sort (Object_keys (VObj pa))))
        eqn:E; [reflexivity|].
      apply keys_differ_false in E. rewrite E. cbn [negb andb].
      apply every_ext. intros key _. apply IH.
      * pose proof (depth_get (VObj pa) key eq_refl). lia.
      * pose proof (depth_get (VArr l') key eq_refl). lia.
    + rewrite (deepEqual_by_keys (VObj pa) (VObj pb)), (deepEqual_by_keys (VObj pb) (VObj pa))
        by reflexivity.
      rewrite keys_differ_sym.
      destruct (keys_differ (sort (Object_keys (VObj pb))) (sort (Object_keys (VObj pa))))
        eqn:E; [reflexivity|].
      apply keys_differ_false in E. rewrite E. cbn [negb andb].
      apply every_ext. intros key _. apply IH.
      * pose proof (depth_get (VObj pa) key eq_refl). lia.
      * pose proof (depth_get (VObj pb) key eq_refl). lia.
  - rewrite (deepEqual_scalar a b), (deepEqual_scalar b a) by auto. apply strict_equals_sym.
  - rewrite (deepEqual_scalar a b), (deepEqual_scalar b a) by auto. apply strict_equals_sym.
Qed.

(** X13.  Symmetry.  Deep equality does not depend on which of the two
    values is the output and which the expected one. *)
Theorem deepEqual_symmetric : forall a b, deepEqual a b = deepEqual b a.
Proof.
  intros a b. apply (deepEqual_symmetric_depth (S (Nat.max (depth a) (depth b)))); lia.
Qed.

(* ================================================================= *)
(** ** The comparator: a number as tolerance *)

Lemma finite_cases : forall x,
  PrimFloat.is_finite x = true ->
  (exists s, Prim2SF x = S754_zero s) \/ (exists s m e, Prim2SF x = S754_finite s m e).
Proof.
  intros x H. unfold PrimFloat.is_finite, PrimFloat.is_nan, PrimFloat.is_infinity in H.
  rewrite !eqb_spec, abs_spec in H.
  destruct (Prim2SF x) as [s|s| |s m e]; eauto.
  - exfalso. revert H. cbn. destruct s; discriminate.
  - discriminate H.
Qed.

(** A finite number is at distance zero from itself. *)
Lemma distance_self : forall x,
  PrimFloat.is_finite x = true -> Prim2SF (distance x x) = S754_zero false.
Proof.
  intros x H. unfold distance. rewrite abs_spec, sub_spec.
  destruct (finite_cases x H) as [[s E]|[s [m [e E]]]]; rewrite E.
  - destruct s; reflexivity.
  - unfold SF64sub, SFsub. cbv zeta. rewrite Z.sub_diag. reflexivity.
Qed.

Lemma within_tolerance_self : forall x t,
  PrimFloat.is_finite x = true ->
  PrimFloat.leb 0 t = true ->
  PrimFloat.leb (distance x x) t = true.
Proof.
  intros x t Hx Ht. rewrite leb_spec in *. now rewrite (distance_self x Hx).
Qed.

Lemma finite_not_nan : forall n, PrimFloat.is_finite n = true -> PrimFloat.is_nan n = false.
Proof.
  intros n H. unfold PrimFloat.is_finite in H.
  destruct (PrimFloat.is_nan n); [discriminate|reflexivity].
Qed.

Lemma approxEqualWithAbsTolerance_objects : forall a b t,
  is_container a = true -> is_container b = true ->
  approxEqualWithAbsTolerance a b t
  = negb (keys_differ (sort (Object_keys a)) (sort (Object_keys b)))
    && every (fun key => approxEqualWithAbsTolerance (get a key) (get b key) t)
             (sort (Object_keys a)).
Proof.
  intros a b t Ha Hb. rewrite approxEqualWithAbsTolerance_unfold.
  unfold approxEqualWithAbsTolerance_body, both_objects.
  destruct a; try discriminate Ha; destruct b; try discriminate Hb;
    cbn [typeof JsType_eqb is_null negb andb];
    destruct (keys_differ _ _); reflexivity.
Qed.

Lemma approxEqualWithAbsTolerance_reflexive_depth : forall d v t,
  depth v < d ->
  PrimFloat.leb 0 t = true ->
  (forall n, occurs_in (VNum n) v -> PrimFloat.is_finite n = true) ->
  approxEqualWithAbsTolerance v v t = true.
Proof.
  induction d as [|d IH]; intros v t Hd Ht Hn; [lia|].
  destruct (is_container v) eqn:C.
  - rewrite approxEqualWithAbsTolerance_objects by assumption.
    rewrite (proj2 (keys_differ_false _ _) eq_refl). cbn [negb andb].
    apply every_true. intros key _. apply IH; [|assumption|].
    + rewrite is_container_objects in C. pose proof (depth_get v key C). lia.
    + intros n Ho. apply Hn. eapply occurs_in_get; eauto.
  - rewrite approxEqualWithAbsTolerance_unfold. unfold approxEqualWithAbsTolerance_body.
    destruct v; try discriminate C; try reflexivity.
    + apply deepEqual_of_strict. now destruct b.
    + apply within_tolerance_self; [|assumption]. apply Hn. constructor.
    + apply deepEqual_of_strict. apply String.eqb_refl.
Qed.

(** X14.  Reflexivity under a tolerance.  With a number that is not below
    zero as tolerance, a value all of whose numbers are finite is
    approx-equal to itself. *)
Theorem approxEqualWithAbsTolerance_reflexive : forall v t,
  PrimFloat.leb 0 t = true ->
  (forall n, occurs_in (VNum n) v -> PrimFloat.is_finite n = true) ->
  approxEqualWithAbsTolerance v v t = true.
Proof.
  intros v t. apply (approxEqualWithAbsTolerance_reflexive_depth (S (depth v))). lia.
Qed.

(** X15.  The tolerance reaches every depth.  With a number as tolerance,
    two objects with distinct keys are approx-equal exactly when they have
    the same keys and the values under each key are approx-equal with the
    same tolerance, recursively. *)
Theorem approxEqualWithAbsTolerance_fields : forall pa pb t,
  NoDup (map fst pa) -> NoDup (map fst pb) ->
  (approxEqualWithAbsTolerance (VObj pa) (VObj pb) t = true
   <-> (forall k, In k (map fst pa) <-> In k (map fst pb))
       /\ (forall k, In k (map fst pa) ->
             approxEqualWithAbsTolerance (get (VObj pa) k) (get (VObj pb) k) t = true)).
Proof.
  intros pa pb t Ha Hb.
  rewrite (approxEqualWithAbsTolerance_objects (VObj pa) (VObj pb)) by reflexivity.
  cbn [Object_keys]. rewrite andb_true_iff, negb_true_iff, keys_differ_false.
  rewrite (sorted_keys_agree _ _ Ha Hb), every_true.
  split; intros [Hk Hv]; (split; [exact Hk|]); intros k Hin; apply Hv.
  - apply (Permutation_in _ (sort_perm _)). exact Hin.
  - apply (Permutation_in _ (Permutation_sym (sort_perm _))). exact Hin.
Qed.

Lemma index_key_inj : forall i j, index_key i = index_key j -> i = j.
Proof.
  intros i j H. unfold index_key in H.
  apply (f_equal NilEmpty.uint_of_string) in H. rewrite !NilEmpty.usu in H.
  injection H as H. now apply Unsigned.to_uint_inj.
Qed.

Lemma index_keys_seq : forall l i, index_keys i l = map index_key (seq i (List.length l)).
Proof.
  induction l as [|x l IH]; intros i; [reflexivity|].
  cbn [index_keys List.length seq map]. now rewrite IH.
Qed.

Lemma element_at_index : forall l i j,
  j < List.length l ->
  element_at_key i (index_key (i + j)) l = Some (nth j l VUndefined).
Proof.
  induction l as [|x l IH]; intros i j Hj; [cbn in Hj; lia|].
  cbn [element_at_key]. destruct j as [|j].
  - now rewrite Nat.add_0_r, String.eqb_refl.
  - destruct (String.eqb (index_key i) (index_key (i + S j))) eqn:E.
    + apply String.eqb_eq, index_key_inj in E. lia.
    + rewrite <- Nat.add_succ_comm. cbn [nth]. apply IH. cbn in Hj. lia.
Qed.

Lemma get_index_key : forall l j,
  j < List.length l -> get (VArr l) (index_key j) = nth j l VUndefined.
Proof.
  intros l j Hj. cbn [get]. pose proof (element_at_index l 0 j Hj) as E.
  cbn [Nat.add] in E. now rewrite E.
Qed.

Lemma approxEqualWithAbsTolerance_arrays_iff : forall l l' t,
  approxEqualWithAbsTolerance (VArr l) (VArr l') t = true
  <-> List.length l = List.length l'
      /\ forall i, i < List.length l ->
           approxEqualWithAbsTolerance (nth i l VUndefined) (nth i l' VUndefined) t = true.
Proof.
  intros l l' t.
  rewrite (approxEqualWithAbsTolerance_objects (VArr l) (VArr l')) by reflexivity.
  cbn [Object_keys]. rewrite andb_true_iff, negb_true_iff, keys_differ_false, every_true.
  rewrite !index_keys_seq. split.
  - intros [Hk Hv].
    assert (Hl : List.length l = List.length l').
    { assert (P : Permutation (map index_key (seq 0 (List.length l)))
                              (map index_key (seq 0 (List.length l')))).
      { rewrite (sort_perm (map index_key (seq 0 (List.length l)))), Hk.
        symmetry. apply sort_perm. }
      apply Permutation_length in P. now rewrite !length_map, !length_seq in P. }
    split; [exact Hl|]. intros i Hi.
    rewrite <- (get_index_key l i Hi), <- (get_index_key l' i) by lia.
    apply Hv. apply (Permutation_in _ (sort_perm _)).
    apply in_map. apply in_seq. lia.
  - intros [Hl Hv]. split; [now rewrite Hl|].
    intros key Hin. apply (Permutation_in _ (Permutation_sym (sort_perm _))) in Hin.
    apply in_map_iff in Hin. destruct Hin as [i [<- Hi]]. apply in_seq in Hi.
    rewrite (get_index_key l i), (get_index_key l' i) by lia. apply Hv. lia.
Qed.


(** X16.  Arrays under a tolerance.  With a number as tolerance, two arrays
    are approx-equal exactly when they have the same length and their
    elements are approx-equal, with the same tolerance, position by
    position. *)
Theorem approxEqualWithAbsTolerance_arrays : forall l l' t,
  approxEqualWithAbsTolerance (VArr l) (VArr l') t = true
  <-> List.length l = List.length l'
      /\ forall i, i < List.length l ->
           approxEqualWithAbsTolerance (nth i l VUndefined) (nth i l' VUndefined) t = true.
Proof. exact approxEqualWithAbsTolerance_arrays_iff. Qed.

(* ================================================================= *)
(** ** The comparator: a structured tolerance *)

(** X17.  Objects under a structured tolerance.  Two objects with distinct
    keys are approx-equal under a structured tolerance exactly when they have
    the same keys and, under each key, two numbers are within the tolerance
    of that field (what [fields?.[key] ?? tolerance] yields: the entry of
    [fields] under the key, else the member of [Object.prototype] of that
    name, which bounds nothing, else the whole tolerance), and values that
    are not both numbers are deep-equal: nested values are compared
    exactly. *)
Theorem approxEqual_fields : forall pa pb abs rel fields,
  NoDup (map fst pa) -> NoDup (map fst pb) ->
  (approxEqual (VObj pa) (VObj pb) (TolObject abs rel fields) = true
   <-> (forall k, In k (map fst pa) <-> In k (map fst pb))
       /\ (forall k, In k (map fst pa) ->
             match get (VObj pa) k, get (VObj pb) k with
             | VNum x, VNum y =>
                 approxEqual (VNum x) (VNum y)
                   (field_tolerance fields k (TolObject abs rel fields))
             | x, y => deepEqual x y
             end = true)).
Proof.
  intros pa pb abs rel fields Ha Hb. rewrite approxEqual_structured_field.
  destruct (keys_differ (sort (map fst pa)) (sort (map fst pb))) eqn:E.
  - split; [discriminate|]. intros [Hk _].
    apply (proj2 (sorted_keys_agree _ _ Ha Hb)) in Hk.
    apply (proj2 (keys_differ_false _ _)) in Hk. congruence.
  - apply (proj1 (keys_differ_false _ _)) in E.
    pose proof (proj1 (sorted_keys_agree _ _ Ha Hb) E) as Hk.
    rewrite every_true. split.
    + intros Hv. split; [exact Hk|]. intros k Hin. apply Hv.
      apply (Permutation_in _ (sort_perm _)). exact Hin.
    + intros [_ Hv] k Hin. apply Hv.
      apply (Permutation_in _ (Permutation_sym (sort_perm _))). exact Hin.
Qed.

(* ================================================================= *)
(** ** Special values *)

(** X18.  No false alarm.  [hasSpecialValues] answers [false] exactly when
    every number that occurs in the value, at any depth, is finite: strings,
    booleans, [null] and [undefined] are never special, and an output with
    finite numbers only is never rejected for special values. *)
Theorem hasSpecialValues_false : forall value,
  hasSpecialValues value = false
  <-> (forall n, occurs_in (VNum n) value -> PrimFloat.is_finite n = true).
Proof.
  intros value. split.
  - intros H n Ho. destruct (PrimFloat.is_finite n) eqn:E; [reflexivity|].
    assert (T : hasSpecialValues value = true) by (apply hasSpecialValues_spec; eauto).
    congruence.
  - apply hasSpecialValues_finite.
Qed.

(* ================================================================= *)
(** ** The evaluator: exact outputs, failures and the report *)

Section Outcomes.

Variable NumberToString : float -> string.
Variable TypeErrorMessage : string.

(** X19.  An exact output passes.  When the operation of a case that is
    neither skipped nor marked xfail returns the expected value itself, and
    the numbers of that value are finite, the verdict is PASS in strict mode,
    in deep mode, and in approx mode with a number not below zero as
    tolerance. *)
Theorem exact_output_passes : forall implementation t opFunc,
  truthy_string (skip (test t)) = false ->
  truthy_bool (xfail (test t)) = false ->
  implementation (op (test t)) = Some opFunc ->
  opFunc (input (test t)) = Normal (expected (test t)) ->
  (forall n, occurs_in (VNum n) (expected (test t)) -> PrimFloat.is_finite n = true) ->
  resolvedCompare t = Strict
  \/ resolvedCompare t = Deep
  \/ (resolvedCompare t = Approx
      /\ exists tolerance,
           resolvedTolerance t = Some (TolNumber tolerance)
           /\ PrimFloat.leb 0 tolerance = true) ->
  runTest NumberToString TypeErrorMessage implementation t
  = ([(op (test t), input (test t))],
     Normal (mkTestResult t PASS None (Some (expected (test t))))).
Proof.
  intros implementation t opFunc Hs Hx Hi Ho Hfin Hmode.
  rewrite (runTest_returned _ _ _ _ _ _ Hs Hi Ho), (hasSpecialValues_finite _ Hfin), Hx.
  destruct Hmode as [E|[E|[E [tolerance [Et Ht]]]]]; rewrite E; cbn [CompareMode_eqb andb].
  - cbn [compare].
    destruct (JSON_stringify NumberToString (expected (test t)));
      [now rewrite String.eqb_refl|reflexivity].
  - cbn [compare]. rewrite (deepEqual_reflexive_depth (S (depth (expected (test t)))));
      [reflexivity|lia|].
    intros n Ho'. apply finite_not_nan. now apply Hfin.
  - rewrite Et. cbn [compare]. rewrite approxEqual_unfold. cbn [approxEqual_body].
    rewrite (approxEqualWithAbsTolerance_reflexive_depth (S (depth (expected (test t)))));
      [reflexivity|lia|assumption|assumption].
Qed.

(** X20.  A failure does not stop the run.  When the operation of a case
    throws an [Error], the case gets the verdict ERROR, whose message is
    [Exception: ] followed by the error's message and which has no actual
    value, and the run goes on with the following cases. *)
Theorem failure_does_not_stop_the_run :
  forall implementation t opFunc description rest results,
  truthy_string (skip (test t)) = false ->
  implementation (op (test t)) = Some opFunc ->
  opFunc (input (test t)) = Throw (ErrorObject description) ->
  let verdict := mkTestResult t ERROR (Some ("Exception: " ++ description)) None in
  runTest NumberToString TypeErrorMessage implementation t
  = ([(op (test t), input (test t))], Normal verdict)
  /\ run_loop NumberToString TypeErrorMessage implementation (t :: rest) results
     = ((op (test t), input (test t))
        :: fst (run_loop NumberToString TypeErrorMessage implementation rest
                  (results ++ [verdict])%list),
        snd (run_loop NumberToString TypeErrorMessage implementation rest
               (results ++ [verdict])%list)).
Proof.
  intros implementation t opFunc description rest results Hs Hi Ho verdict.
  assert (E : runTest NumberToString TypeErrorMessage implementation t
              = ([(op (test t), input (test t))], Normal verdict)).
  { unfold runTest, runTest_try. rewrite Hs, Hi, Ho. reflexivity. }
  split; [exact E|]. cbn [run_loop]. rewrite E.
  destruct (run_loop _ _ _ rest _). reflexivity.
Qed.

End Outcomes.

Lemma count_status_none : forall s results,
  count_status s results = 0 <-> (forall r, In r results -> status r <> s).
Proof.
  intros s results. unfold count_status.
  induction results as [|r results IH]; cbn [filter].
  - split; [intros _ r []|reflexivity].
  - destruct (Status_eqb (status r) s) eqn:E; cbn [List.length].
    + split; [discriminate|]. intros H. exfalso. apply (H r); [now left|].
      destruct (status r), s; try discriminate E; reflexivity.
    + rewrite IH. split.
      * intros H r' [<-|Hin]; [|now apply H].
        intros Heq. rewrite Heq in E. destruct s; discriminate E.
      * intros H r' Hin. apply H. now right.
Qed.

(** X21.  Success of a run.  [printResults] returns [true] exactly when no
    verdict is FAIL or ERROR, that is when every verdict is PASS or SKIP;
    skipped cases do not make a run fail, and a run without cases
    succeeds. *)
Theorem success_means_no_failure : forall results,
  snd (printResults results) = true
  <-> forall r, In r results -> status r = PASS \/ status r = SKIP.
Proof.
  intros results.
  cbn [printResults snd]. rewrite andb_true_iff, !Nat.eqb_eq, !count_status_none. split.
  - intros [Hf He] r Hin. specialize (Hf r Hin). specialize (He r Hin).
    destruct (status r); auto; contradiction.
  - intros H. split; intros r Hin; destruct (H r Hin) as [-> | ->]; discriminate.
Qed.

(** X22.  The counts of the report.  The four counts of the summary line
    (pass, fail, skip, error) add up to the number of verdicts. *)
Theorem counts_add_up : forall results,
  count_status PASS results + count_status FAIL results
  + count_status SKIP results + count_status ERROR results
  = List.length results.
Proof.
  intros results. unfold count_status.
  induction results as [|r results IH]; [reflexivity|].
  cbn [filter List.length]. destruct (status r); cbn [Status_eqb List.length]; lia.
Qed.

(* ================================================================= *)
(** ** Deep equality and tolerance *)

(** Two finite numbers that are equal are at distance zero. *)
Lemma distance_equal : forall x y,
  PrimFloat.is_finite x = true -> PrimFloat.eqb x y = true ->
  Prim2SF (distance x y) = S754_zero false.
Proof.
  intros x y Hx E. unfold distance. rewrite abs_spec, sub_spec.
  rewrite eqb_spec in E. unfold SFeqb, SFcompare in E.
  destruct (finite_cases x Hx) as [[s Ex]|[s [m [e Ex]]]]; rewrite Ex in *.
  - destruct (Prim2SF y) as [s'|s'| |s' m' e']; try discriminate E.
    + destruct s, s'; reflexivity.
    + destruct s'; discriminate E.
    + destruct s'; discriminate E.
  - destruct (Prim2SF y) as [s'|s'| |s' m' e']; try discriminate E.
    + destruct s; discriminate E.
    + destruct s'; discriminate E.
    + change (IntDef.Z.compare e e') with (Z.compare e e') in E.
      change (PosDef.Pos.compare_cont Eq m m') with (Pos.compare m m') in E.
      assert (s = s' /\ e = e' /\ m = m') as [<- [<- <-]].
      { destruct s, s'; try discriminate E;
          destruct (Z.compare_spec e e'); try discriminate E;
          destruct (Pos.compare_spec m m'); try discriminate E; auto. }
      unfold SF64sub, SFsub. cbv zeta. rewrite Z.sub_diag. reflexivity.
Qed.

Lemma deep_then_approx_depth : forall d a b t,
  depth a < d ->
  PrimFloat.leb 0 t = true ->
  (forall n, occurs_in (VNum n) a -> PrimFloat.is_finite n = true) ->
  deepEqual a b = true ->
  approxEqualWithAbsTolerance a b t = true.
Proof.
  induction d as [|d IH]; intros a b t Hd Ht Hfin H; [lia|].
  destruct (is_container a) eqn:Ca; [destruct (is_container b) eqn:Cb|].
  - rewrite approxEqualWithAbsTolerance_objects by assumption.
    assert (K : keys_differ (sort (Object_keys a)) (sort (Object_keys b)) = false
                /\ forall key, In key (sort (Object_keys a)) ->
                     deepEqual (get a key) (get b key) = true).
    { destruct a as [| | | | |l|pa]; try discriminate Ca;
        destruct b as [| | | | |l'|pb]; try discriminate Cb.
      - apply deepEqual_arrays_iff in H.
        assert (Hl : List.length l = List.length l') by (now apply Forall2_length in H).
        cbn [Object_keys]. rewrite !index_keys_seq, Hl. split.
        + now apply keys_differ_false.
        + intros key Hin. apply (Permutation_in _ (Permutation_sym (sort_perm _))) in Hin.
          apply in_map_iff in Hin. destruct Hin as [i [<- Hi]]. apply in_seq in Hi.
          rewrite (get_index_key l i), (get_index_key l' i) by lia.
          clear -H Hi Hl. revert i Hi. induction H as [|x y l l' Hxy _ IHF]; intros i Hi.
          * cbn in Hi. lia.
          * destruct i as [|i]; [exact Hxy|]. cbn [nth]. apply IHF; cbn in *; lia.
      - rewrite (deepEqual_by_keys (VArr l) (VObj pb)) in H by reflexivity.
        apply andb_true_iff in H. destruct H as [Hk Hv].
        apply negb_true_iff in Hk. split; [exact Hk|]. now apply every_true.
      - rewrite (deepEqual_by_keys (VObj pa) (VArr l')) in H by reflexivity.
        apply andb_true_iff in H. destruct H as [Hk Hv].
        apply negb_true_iff in Hk. split; [exact Hk|]. now apply every_true.
      - rewrite (deepEqual_by_keys (VObj pa) (VObj pb)) in H by reflexivity.
        apply andb_true_iff in H. destruct H as [Hk Hv].
        apply negb_true_iff in Hk. split; [exact Hk|]. now apply every_true. }
    destruct K as [Hk Hv]. rewrite Hk. cbn [negb andb].
    apply every_true. intros key Hin. apply IH; [|assumption| |now apply Hv].
    + rewrite is_container_objects in Ca. pose proof (depth_get a key Ca). lia.
    + intros n Ho. apply Hfin. eapply occurs_in_get; eauto.
  - rewrite deepEqual_scalar in H by auto.
    destruct a; try discriminate Ca; destruct b; discriminate H || discriminate Cb.
  - rewrite approxEqualWithAbsTolerance_unfold. unfold approxEqualWithAbsTolerance_body.
    destruct a as [| |x|x|x| |]; try discriminate Ca;
      try (destruct b; try exact H;
           rewrite deepEqual_scalar in H by auto; discriminate H).
    destruct b as [| | |y| | |]; try (rewrite deepEqual_scalar in H by auto; discriminate H).
    rewrite deepEqual_scalar in H by auto. cbn [strict_equals] in H.
    change (PrimFloat.abs (x - y)) with (distance x y).
    rewrite leb_spec in *. rewrite (distance_equal x y); [exact Ht| |exact H].
    apply Hfin. constructor.
Qed.

(** X23.  A tolerance only relaxes.  Two values that are deep-equal, the
    numbers of the first being finite, are approx-equal under every number
    not below zero taken as tolerance. *)
Theorem deep_then_approx : forall a b t,
  PrimFloat.leb 0 t = true ->
  (forall n, occurs_in (VNum n) a -> PrimFloat.is_finite n = true) ->
  deepEqual a b = true ->
  approxEqualWithAbsTolerance a b t = true.
Proof. intros a b t. apply (deep_then_approx_depth (S (depth a))). lia. Qed.

(* ================================================================= *)
(** ** From the document to the verdicts *)

Lemma Forall2_In_left : forall (A B : Type) (R : A -> B -> Prop) l l' x,
  Forall2 R l l' -> In x l -> exists y, In y l' /\ R x y.
Proof.
  intros A B R l l' x F. induction F as [|a b l l' Hab _ IH]; intros Hin; [contradiction|].
  destruct Hin as [->|Hin].
  - exists b. split; [now left|assumption].
  - destruct (IH Hin) as [y [Hy Hr]]. exists y. split; [now right|assumption].
Qed.

(** X24.  Every test gets a verdict.  When every exception that an operation
    throws on the input of its case has a message text (as an [Error] has,
    and a thrown string, number or boolean), every test of the document, under
    whatever chain of groups it lies, has a verdict in the result of the run,
    and that verdict refers to the test with the names of its ancestor groups
    as path and with its inherited compare mode and tolerance. *)
Theorem every_test_gets_a_verdict :
  forall NumberToString TypeErrorMessage implementation spec chain t,
  (forall ft opFunc e,
     In ft (flattenGroups (spec_groups spec) [] (spec_defaults spec)) ->
     implementation (op (test ft)) = Some opFunc ->
     opFunc (input (test ft)) = Throw e ->
     exists text, exception_text NumberToString TypeErrorMessage e = Normal text) ->
  ancestry (spec_groups spec) chain t ->
  exists calls results r,
    run NumberToString TypeErrorMessage implementation spec = (calls, Normal results)
    /\ In r results
    /\ result_test r
       = mkFlatTest t (map group_name chain)
           (effective_compare (spec_defaults spec) chain t)
           (effective_tolerance (spec_defaults spec) chain t).
Proof.
  intros NumberToString TypeErrorMessage implementation spec chain t Hsafe Ha.
  unfold run.
  destruct (run_loop_verdicts NumberToString TypeErrorMessage implementation
              (flattenGroups (spec_groups spec) [] (spec_defaults spec)) [])
    as [calls [out [E F]]].
  { apply Forall_forall. intros ft Hin.
    apply runTest_returns. intros opFunc e Hi Ho. eapply Hsafe; eauto. }
  assert (Hin : In (resolved_case [] (spec_defaults spec) (chain, t))
                   (flattenGroups (spec_groups spec) [] (spec_defaults spec))).
  { rewrite flattenGroups_cases. apply in_map. now apply ancestry_cases. }
  destruct (Forall2_In_left _ _ _ _ _ _ F Hin) as [r [Hr [c Hc]]].
  exists calls, out, r. split; [exact E|]. split; [exact Hr|].
  apply (runTest_verdict NumberToString TypeErrorMessage) in Hc. apply Hc.
Qed.

(* ================================================================= *)
(** ** The further properties on the example cases *)

Lemma finite_numbers_of : forall v,
  hasSpecialValues v = false ->
  forall n, occurs_in (VNum n) v -> PrimFloat.is_finite n = true.
Proof.
  intros v H n Ho. destruct (PrimFloat.is_finite n) eqn:E; [reflexivity|].
  assert (T : hasSpecialValues v = true) by (apply hasSpecialValues_spec; eauto).
  congruence.
Qed.

Lemma inherited_test_ancestry :
  ancestry [outer_group] [outer_group; inner_group] inherited_test.
Proof.
  apply ancestry_deeper; [now left|]. apply ancestry_parent; now left.
Qed.

Lemma mixed_spec_is_safe : forall ft opFunc e,
  In ft (flattenGroups (spec_groups mixed_spec) [] (spec_defaults mixed_spec)) ->
  sample_operations (op (test ft)) = Some opFunc ->
  opFunc (input (test ft)) = Throw e ->
  exists text, exception_text integer_text engine_type_error e = Normal text.
Proof.
  intros ft opFunc e [<-|[<-|[]]] [= <-] H.
  - injection H as <-. eexists. reflexivity.
  - discriminate H.
Qed.

Lemma failing_test_ancestry : ancestry (spec_groups mixed_spec) [mixed_group] failing_test.
Proof. apply ancestry_parent; now left. Qed.

Lemma flattening_is_complete_witness :
  ancestry [outer_group] [outer_group; inner_group] inherited_test
  /\ In inherited_case (flattenGroups [outer_group] [] root_defaults).
Proof.
  split; [exact inherited_test_ancestry|].
  exact (flattening_is_complete [outer_group] [] root_defaults
           [outer_group; inner_group] inherited_test inherited_test_ancestry).
Defined.

Lemma missing_operation_is_an_error_witness :
  runTest integer_text engine_type_error no_operations empty_skip_case
  = ([], Normal (mkTestResult empty_skip_case ERROR
                   (Some "Operation 'hsl_to_rgb' not found in implementation") None)).
Proof.
  exact (missing_operation_is_an_error integer_text engine_type_error no_operations
           empty_skip_case eq_refl eq_refl).
Defined.

Lemma xfail_inverts_the_verdict_witness :
  compare integer_text engine_type_error (VObj [("x", VNum 1)]) (expected (test xfail_case))
    Strict None = Normal false
  /\ runTest integer_text engine_type_error sample_operations xfail_case
     = ([("same", VObj [("x", VNum 1)])],
        Normal (mkTestResult xfail_case PASS None (Some (VObj [("x", VNum 1)])))).
Proof.
  split; [vm_compute; reflexivity|].
  exact (xfail_inverts_the_verdict integer_text engine_type_error sample_operations
           xfail_case _ (VObj [("x", VNum 1)]) false eq_refl eq_refl eq_refl eq_refl eq_refl).
Defined.

Lemma verdict_shape_witness :
  result_test (mkTestResult failing_case ERROR
                 (Some "Exception: HSL conversion not implemented") None) = failing_case
  /\ exists m, Some "Exception: HSL conversion not implemented" = Some m /\ m <> "".
Proof.
  exact (verdict_shape integer_text engine_type_error sample_operations failing_case
           [("fail", VNull)]
           (mkTestResult failing_case ERROR
              (Some "Exception: HSL conversion not implemented") None) eq_refl).
Defined.

Lemma thrown_value_is_not_reported_witness :
  runTest integer_text engine_type_error throwing_operations thrown_text_case
  = ([("check", VNull)],
     Normal (mkTestResult thrown_text_case ERROR (Some "Exception: undefined") None)).
Proof.
  refine (thrown_value_is_not_reported integer_text engine_type_error throwing_operations
            thrown_text_case _ (VStr "out of range") eq_refl eq_refl eq_refl eq_refl _).
  intros ps. discriminate.
Defined.

Lemma run_gives_one_verdict_per_case_witness :
  exists calls results,
    run integer_text engine_type_error sample_operations mixed_spec
    = (calls, Normal results)
    /\ Forall2 (fun t r => exists c,
                  runTest integer_text engine_type_error sample_operations t
                  = (c, Normal r))
               (flattenGroups (spec_groups mixed_spec) [] (spec_defaults mixed_spec))
               results.
Proof.
  exact (run_gives_one_verdict_per_case integer_text engine_type_error sample_operations
           mixed_spec mixed_spec_is_safe).
Defined.

Lemma deepEqual_primitives_witness :
  is_container (VNum 1) = false
  /\ (deepEqual (VNum 1) (VStr "1") = true <-> strict_equals (VNum 1) (VStr "1") = true).
Proof.
  split; [reflexivity|].
  exact (deepEqual_primitives (VNum 1) (VStr "1") (or_introl eq_refl)).
Defined.

Lemma deepEqual_reflexive_witness : deepEqual object_a_b object_a_b = true.
Proof.
  apply (deepEqual_reflexive object_a_b).
  intros n H. apply finite_not_nan. revert n H. apply finite_numbers_of.
  vm_compute. reflexivity.
Defined.

Lemma approxEqualWithAbsTolerance_reflexive_witness :
  PrimFloat.leb 0 0.5 = true
  /\ approxEqualWithAbsTolerance object_a_b object_a_b 0.5 = true.
Proof.
  split; [reflexivity|].
  apply (approxEqualWithAbsTolerance_reflexive object_a_b 0.5%float eq_refl).
  apply finite_numbers_of. vm_compute. reflexivity.
Defined.

Lemma object_a_b_distinct_keys : NoDup (map fst [("a", VNum 1); ("b", VNum 2)]).
Proof. repeat constructor; cbn; intuition discriminate. Qed.

Lemma object_b_a_distinct_keys : NoDup (map fst [("b", VNum 2); ("a", VNum 1)]).
Proof. repeat constructor; cbn; intuition discriminate. Qed.

Lemma approxEqualWithAbsTolerance_fields_witness :
  approxEqualWithAbsTolerance object_a_b object_b_a 0.5 = true
  <-> (forall k, In k ["a"; "b"] <-> In k ["b"; "a"])
      /\ (forall k, In k ["a"; "b"] ->
            approxEqualWithAbsTolerance (get object_a_b k) (get object_b_a k) 0.5 = true).
Proof.
  exact (approxEqualWithAbsTolerance_fields
           [("a", VNum 1); ("b", VNum 2)] [("b", VNum 2); ("a", VNum 1)] 0.5%float
           object_a_b_distinct_keys object_b_a_distinct_keys).
Defined.

Lemma approxEqual_fields_witness :
  approxEqual object_a_b object_b_a (TolObject (Some 0.5%float) None None) = true
  <-> (forall k, In k ["a"; "b"] <-> In k ["b"; "a"])
      /\ (forall k, In k ["a"; "b"] ->
            match get object_a_b k, get object_b_a k with
            | VNum x, VNum y =>
                approxEqual (VNum x) (VNum y)
                  (field_tolerance None k (TolObject (Some 0.5%float) None None))
            | x, y => deepEqual x y
            end = true).
Proof.
  exact (approxEqual_fields
           [("a", VNum 1); ("b", VNum 2)] [("b", VNum 2); ("a", VNum 1)]
           (Some 0.5%float) None None
           object_a_b_distinct_keys object_b_a_distinct_keys).
Defined.

Lemma exact_output_passes_witness :
  runTest integer_text engine_type_error sample_operations exact_case
  = ([("same", VObj [("x", VNum 1)])],
     Normal (mkTestResult exact_case PASS None (Some (VObj [("x", VNum 1)])))).
Proof.
  refine (exact_output_passes integer_text engine_type_error sample_operations exact_case _
            eq_refl eq_refl eq_refl eq_refl _ _).
  - apply finite_numbers_of. vm_compute. reflexivity.
  - right. right. split; [reflexivity|]. exists 0.5%float. split; reflexivity.
Defined.

Lemma failure_does_not_stop_the_run_witness :
  run_loop integer_text engine_type_error sample_operations
    [failing_case; after_boom_case] []
  = ([("fail", VNull); ("same", VNull)],
     Normal [mkTestResult failing_case ERROR
               (Some "Exception: HSL conversion not implemented") None;
             mkTestResult after_boom_case PASS None (Some VNull)]).
Proof.
  exact (proj2 (failure_does_not_stop_the_run integer_text engine_type_error
                  sample_operations failing_case _ "HSL conversion not implemented"
                  [after_boom_case] [] eq_refl eq_refl eq_refl)).
Defined.

Lemma deep_then_approx_witness :
  deepEqual object_a_b object_b_a = true
  /\ approxEqualWithAbsTolerance object_a_b object_b_a 0.5 = true.
Proof.
  split; [vm_compute; reflexivity|].
  apply (deep_then_approx object_a_b object_b_a 0.5%float eq_refl).
  - apply finite_numbers_of. vm_compute. reflexivity.
  - vm_compute. reflexivity.
Defined.

Lemma every_test_gets_a_verdict_witness :
  exists calls results r,
    run integer_text engine_type_error sample_operations mixed_spec
    = (calls, Normal results)
    /\ In r results
    /\ result_test r = mkFlatTest failing_test ["mixed"] Strict None.
Proof.
  exact (every_test_gets_a_verdict integer_text engine_type_error sample_operations
           mixed_spec [mixed_group] failing_test
           mixed_spec_is_safe failing_test_ancestry).
Defined.

(* ================================================================= *)
(** ** Key order at any depth *)

Lemma Forall2_nth_iff : forall (A : Type) (R : A -> A -> Prop) (d : A) l l',
  Forall2 R l l'
  <-> List.length l = List.length l'
      /\ forall i, i < List.length l -> R (nth i l d) (nth i l' d).
Proof.
  intros A R d l. induction l as [|x l IH]; intros [|y l'].
  - split; [intros _; split; [reflexivity|cbn; lia]|constructor].
  - split; [intros H; inversion H|intros [H _]; discriminate H].
  - split; [intros H; inversion H|intros [H _]; discriminate H].
  - split.
    + intros H. inversion H as [|? ? ? ? Hxy Hl]; subst.
      apply IH in Hl. destruct Hl as [Hlen Hnth]. split; [cbn; now rewrite Hlen|].
      intros [|i] Hi; [exact Hxy|]. cbn [nth]. apply Hnth. cbn in Hi. lia.
    + intros [Hlen Hnth]. constructor.
      * apply (Hnth 0). cbn. lia.
      * apply IH. split; [now injection Hlen|].
        intros i Hi. apply (Hnth (S i)). cbn. lia.
Qed.

Lemma Forall2_same_refl : forall l, Forall2 same_up_to_key_order l l.
Proof. induction l; constructor; [apply same_value|assumption]. Qed.

Lemma same_scalar : forall a a',
  same_up_to_key_order a a' -> is_container a = false -> a' = a.
Proof. intros a a' H C. inversion H; subst; [reflexivity|discriminate C..]. Qed.

Lemma same_kind : forall a a',
  same_up_to_key_order a a' ->
  is_container a' = is_container a /\ isArray a' = isArray a.
Proof. intros a a' H. inversion H; subst; split; reflexivity. Qed.

Lemma same_array_inv : forall l a',
  same_up_to_key_order (VArr l) a' ->
  exists l', a' = VArr l' /\ Forall2 same_up_to_key_order l l'.
Proof.
  intros l a' H. inversion H; subst.
  - exists l. split; [reflexivity|apply Forall2_same_refl].
  - eauto.
Qed.

Lemma same_keys : forall a a',
  same_up_to_key_order a a' -> sort (Object_keys a') = sort (Object_keys a).
Proof.
  intros a a' H. inversion H as [|l l' F|pa pb Hnd P Hv]; subst; [reflexivity| |].
  - cbn [Object_keys]. rewrite !index_keys_seq. now rewrite (Forall2_length F).
  - cbn [Object_keys]. apply sort_Permutation. now symmetry.
Qed.

Lemma element_at_key_same : forall l l',
  Forall2 same_up_to_key_order l l' ->
  forall i key,
    same_up_to_key_order
      (match element_at_key i key l with Some v => v | None => VUndefined end)
      (match element_at_key i key l' with Some v => v | None => VUndefined end).
Proof.
  intros l l' F. induction F as [|x y l l' Hxy _ IH]; intros i key; cbn [element_at_key].
  - apply same_value.
  - destruct (String.eqb (index_key i) key); [exact Hxy|apply IH].
Qed.

Lemma assoc_absent : forall (A : Type) key (l : list (string * A)),
  ~ In key (map fst l) -> assoc key l = None.
Proof.
  intros A key l H. destruct (assoc key l) as [v|] eqn:E; [|reflexivity].
  exfalso. apply H. apply assoc_In in E. apply in_map_iff. exists (key, v). auto.
Qed.

Lemma same_get : forall a a' key,
  same_up_to_key_order a a' -> same_up_to_key_order (get a key) (get a' key).
Proof.
  intros a a' key H. inversion H as [|l l' F|pa pb Hnd P Hv]; subst.
  - apply same_value.
  - cbn [get]. now apply element_at_key_same.
  - destruct (in_dec string_dec key (map fst pa)) as [Hin|Hout]; [now apply Hv|].
    cbn [get]. rewrite (assoc_absent _ key pa Hout).
    rewrite (assoc_absent _ key pb); [apply same_value|].
    intros Hin. apply Hout. apply (Permutation_in _ (Permutation_sym P)). exact Hin.
Qed.

Lemma strict_equals_container : forall a b,
  is_container a = true \/ is_container b = true -> strict_equals a b = false.
Proof.
  intros a b [H|H].
  - destruct a; try discriminate H; reflexivity.
  - destruct b; try discriminate H; destruct a; reflexivity.
Qed.

Lemma container_is_object : forall a,
  is_container a = true -> typeof a = TObject /\ is_null a = false.
Proof. intros a H. destruct a; try discriminate H; split; reflexivity. Qed.

(** The strict equality of two values does not see the order of keys. *)
Lemma strict_equals_same : forall a a' b b',
  same_up_to_key_order a a' -> same_up_to_key_order b b' ->
  strict_equals a' b' = strict_equals a b.
Proof.
  intros a a' b b' Ha Hb.
  destruct (is_container a) eqn:Ca.
  - rewrite !strict_equals_container; [reflexivity|now left|left].
    now rewrite (proj1 (same_kind a a' Ha)).
  - rewrite (same_scalar a a' Ha Ca). destruct (is_container b) eqn:Cb.
    + rewrite !strict_equals_container; [reflexivity|now right|right].
      now rewrite (proj1 (same_kind b b' Hb)).
    + now rewrite (same_scalar b b' Hb Cb).
Qed.

Lemma deepEqual_same_depth : forall d a a' b b',
  depth a < d -> depth b < d ->
  same_up_to_key_order a a' -> same_up_to_key_order b b' ->
  deepEqual a' b' = deepEqual a b.
Proof.
  induction d as [|d IH]; intros a a' b b' Hda Hdb Ha Hb; [lia|].
  destruct (same_kind a a' Ha) as [Ca' Aa']. destruct (same_kind b b' Hb) as [Cb' Ab'].
  destruct (is_container a) eqn:Ca; [destruct (is_container b) eqn:Cb|].
  - destruct (isArray a && isArray b) eqn:Arr.
    + destruct a as [| | | | |l|]; try discriminate Arr.
      destruct b as [| | | | |m|]; try discriminate Arr.
      destruct (same_array_inv l a' Ha) as [l' [-> Fl]].
      destruct (same_array_inv m b' Hb) as [m' [-> Fm]].
      apply bool_eq_iff. rewrite !deepEqual_arrays_iff.
      rewrite !(Forall2_nth_iff Value _ VUndefined).
      apply (Forall2_nth_iff Value _ VUndefined) in Fl, Fm.
      destruct Fl as [Ll Fl], Fm as [Lm Fm]. rewrite <- Ll, <- Lm.
      split; intros [Hlen H]; (split; [exact Hlen|]); intros i Hi.
      * rewrite <- (IH (nth i l VUndefined) (nth i l' VUndefined)
                       (nth i m VUndefined) (nth i m' VUndefined)); auto.
        -- pose proof (depth_element l _ (nth_In l VUndefined Hi)). lia.
        -- assert (Hi' : i < List.length m) by lia.
           pose proof (depth_element m _ (nth_In m VUndefined Hi')). lia.
        -- apply Fm. lia.
      * rewrite (IH (nth i l VUndefined) (nth i l' VUndefined)
                    (nth i m VUndefined) (nth i m' VUndefined)); auto.
        -- pose proof (depth_element l _ (nth_In l VUndefined Hi)). lia.
        -- assert (Hi' : i < List.length m) by lia.
           pose proof (depth_element m _ (nth_In m VUndefined Hi')). lia.
        -- apply Fm. lia.
    + destruct (container_is_object a Ca) as [Ta Na].
      destruct (container_is_object b Cb) as [Tb Nb].
      destruct (container_is_object a' Ca') as [Ta' Na'].
      destruct (container_is_object b' Cb') as [Tb' Nb'].
      rewrite (deepEqual_by_keys a b Ta Tb Na Nb Arr).
      rewrite (deepEqual_by_keys a' b' Ta' Tb' Na' Nb') by (now rewrite Aa', Ab').
      rewrite (same_keys a a' Ha), (same_keys b b' Hb). f_equal.
      apply every_ext. intros key _. apply IH.
      * rewrite is_container_objects in Ca. pose proof (depth_get a key Ca). lia.
      * rewrite is_container_objects in Cb. pose proof (depth_get b key Cb). lia.
      * now apply same_get.
      * now apply same_get.
  - rewrite (deepEqual_scalar a b), (deepEqual_scalar a' b') by (right; congruence).
    now apply strict_equals_same.
  - rewrite (deepEqual_scalar a b), (deepEqual_scalar a' b') by (left; congruence).
    now apply strict_equals_same.
Qed.

Lemma deepEqual_same : forall a a' b b',
  same_up_to_key_order a a' -> same_up_to_key_order b b' ->
  deepEqual a' b' = deepEqual a b.
Proof.
  intros a a' b b'. apply (deepEqual_same_depth (S (Nat.max (depth a) (depth b)))); lia.
Qed.

(** Outside two containers, a number as tolerance bears on two numbers only. *)
Lemma approxEqualWithAbsTolerance_scalar : forall a b t,
  is_container a = false \/ is_container b = false ->
  approxEqualWithAbsTolerance a b t
  = match a, b with
    | VNum x, VNum y => PrimFloat.leb (PrimFloat.abs (x - y)) t
    | _, _ => deepEqual a b
    end.
Proof.
  intros a b t H. rewrite approxEqualWithAbsTolerance_unfold.
  unfold approxEqualWithAbsTolerance_body, both_objects.
  destruct H as [H|H].
  - destruct a; try discriminate H; try reflexivity; destruct b; reflexivity.
  - destruct b; try discriminate H; destruct a; reflexivity.
Qed.

Lemma approxEqual_structured_containers : forall a b abs rel fields,
  is_container a = true -> is_container b = true ->
  approxEqual a b (TolObject abs rel fields)
  = negb (keys_differ (sort (Object_keys a)) (sort (Object_keys b)))
    && every (fun key =>
                field_verdict (field_tolerance fields key (TolObject abs rel fields))
                  (get a key) (get b key))
             (sort (Object_keys a)).
Proof.
  intros a b abs rel fields Ha Hb. rewrite approxEqual_unfold.
  unfold approxEqual_body, both_objects.
  destruct a; try discriminate Ha; destruct b; try discriminate Hb;
    cbn [typeof JsType_eqb is_null negb andb];
    (destruct (keys_differ _ _); [reflexivity|]); cbn [negb andb];
    apply every_ext; intros key _; unfold field_verdict; cbv zeta;
    match goal with
    | |- match ?x with _ => _ end = _ => destruct x; try reflexivity
    end;
    match goal with
    | |- match ?y with _ => _ end = _ => destruct y; reflexivity
    end.
Qed.

Lemma approxEqual_structured_scalar : forall a b abs rel fields,
  is_container a = false \/ is_container b = false ->
  approxEqual a b (TolObject abs rel fields)
  = match a, b with
    | VNum x, VNum y => approxEqual (VNum x) (VNum y) (TolObject abs rel fields)
    | _, _ => deepEqual a b
    end.
Proof.
  intros a b abs rel fields H.
  destruct a as [| | |x| | |]; destruct b as [| | |y| | |];
    try reflexivity;
    try (destruct H as [H|H]; discriminate H);
    rewrite approxEqual_unfold; reflexivity.
Qed.

Lemma field_verdict_same : forall tolerance x x' y y',
  same_up_to_key_order x x' -> same_up_to_key_order y y' ->
  field_verdict tolerance x' y' = field_verdict tolerance x y.
Proof.
  intros tolerance x x' y y' Hx Hy.
  destruct (is_container x) eqn:Cx; [|destruct (is_container y) eqn:Cy].
  - assert (Cx' : is_container x' = true) by (now rewrite (proj1 (same_kind x x' Hx))).
    unfold field_verdict.
    destruct x; try discriminate Cx; destruct x'; try discriminate Cx';
      now apply deepEqual_same.
  - assert (Cy' : is_container y' = true) by (now rewrite (proj1 (same_kind y y' Hy))).
    rewrite (same_scalar x x' Hx Cx) in *. unfold field_verdict.
    destruct x; destruct y; try discriminate Cy; destruct y'; try discriminate Cy';
      apply deepEqual_same; assumption || apply same_value.
  - now rewrite (same_scalar x x' Hx Cx), (same_scalar y y' Hy Cy).
Qed.

Lemma approxEqualWithAbsTolerance_same_depth : forall d a a' b b' t,
  depth a < d -> depth b < d ->
  same_up_to_key_order a a' -> same_up_to_key_order b b' ->
  approxEqualWithAbsTolerance a' b' t = approxEqualWithAbsTolerance a b t.
Proof.
  induction d as [|d IH]; intros a a' b b' t Hda Hdb Ha Hb; [lia|].
  destruct (same_kind a a' Ha) as [Ca' _]. destruct (same_kind b b' Hb) as [Cb' _].
  destruct (is_container a) eqn:Ca; [destruct (is_container b) eqn:Cb|].
  - rewrite (approxEqualWithAbsTolerance_objects a b t Ca Cb).
    rewrite (approxEqualWithAbsTolerance_objects a' b' t Ca' Cb').
    rewrite (same_keys a a' Ha), (same_keys b b' Hb). f_equal.
    apply every_ext. intros key _. apply IH.
    + rewrite is_container_objects in Ca. pose proof (depth_get a key Ca). lia.
    + rewrite is_container_objects in Cb. pose proof (depth_get b key Cb). lia.
    + now apply same_get.
    + now apply same_get.
  - rewrite (approxEqualWithAbsTolerance_scalar a b), (approxEqualWithAbsTolerance_scalar a' b')
      by (right; congruence).
    rewrite (same_scalar b b' Hb Cb) in *.
    destruct a; try discriminate Ca; destruct a'; try discriminate Ca';
      apply deepEqual_same; assumption || apply same_value.
  - rewrite (approxEqualWithAbsTolerance_scalar a b), (approxEqualWithAbsTolerance_scalar a' b')
      by (left; congruence).
    rewrite (same_scalar a a' Ha Ca) in *.
    destruct (is_container b) eqn:Cb.
    + destruct a; destruct b; try discriminate Cb; destruct b'; try discriminate Cb';
        apply deepEqual_same; assumption || apply same_value.
    + now rewrite (same_scalar b b' Hb Cb).
Qed.

Lemma approxEqual_same : forall a a' b b' tolerance,
  same_up_to_key_order a a' -> same_up_to_key_order b b' ->
  approxEqual a' b' tolerance = approxEqual a b tolerance.
Proof.
  intros a a' b b' [t|abs rel fields] Ha Hb.
  - rewrite (approxEqual_unfold a' b'), (approxEqual_unfold a b). cbn [approxEqual_body].
    apply (approxEqualWithAbsTolerance_same_depth (S (Nat.max (depth a) (depth b)))); lia || auto.
  - destruct (same_kind a a' Ha) as [Ca' _]. destruct (same_kind b b' Hb) as [Cb' _].
    destruct (is_container a) eqn:Ca; [destruct (is_container b) eqn:Cb|].
    + rewrite (approxEqual_structured_containers a b _ _ _ Ca Cb).
      rewrite (approxEqual_structured_containers a' b' _ _ _ Ca' Cb').
      rewrite (same_keys a a' Ha), (same_keys b b' Hb). f_equal.
      apply every_ext. intros key _. apply field_verdict_same; now apply same_get.
    + rewrite (approxEqual_structured_scalar a b), (approxEqual_structured_scalar a' b')
        by (right; congruence).
      rewrite (same_scalar b b' Hb Cb) in *.
      destruct a; try discriminate Ca; destruct a'; try discriminate Ca';
        apply deepEqual_same; assumption || apply same_value.
    + rewrite (approxEqual_structured_scalar a b), (approxEqual_structured_scalar a' b')
        by (left; congruence).
      rewrite (same_scalar a a' Ha Ca) in *.
      destruct (is_container b) eqn:Cb.
      * destruct a; destruct b; try discriminate Cb; destruct b'; try discriminate Cb';
          apply deepEqual_same; assumption || apply same_value.
      * now rewrite (same_scalar b b' Hb Cb).
Qed.

Lemma nested_reordering : same_up_to_key_order nested_p_q nested_q_p.
Proof.
  apply same_object.
  - repeat constructor; cbn; intuition discriminate.
  - apply perm_swap.
  - intros k [<-|[<-|[]]]; cbn; [|apply same_value].
    apply same_object.
    + repeat constructor; cbn; intuition discriminate.
    + apply perm_swap.
    + intros k [<-|[<-|[]]]; cbn; apply same_value.
Qed.

Section StrictMode.

Variable NumberToString : float -> string.
Variable TypeErrorMessage : string.

(** C8.  Strict mode is equality of the [JSON.stringify] texts, and so
    depends on the order of the keys: [{a: 1, b: 2}] strict-equals itself
    and strict-mismatches [{b: 2, a: 1}], which deep mode equates with it.
    In deep mode two objects with distinct keys match exactly when they have
    the same set of keys and, under each key, values that match in deep mode;
    in approx mode with a number as tolerance likewise, with values that
    match in approx mode.  In deep and in approx mode the result of a
    comparison does not change when the properties of objects, at any depth
    and on either side, are listed in another order. *)
Theorem strict_alone_depends_on_key_order :
  (forall a b tolerance,
     compare NumberToString TypeErrorMessage a b Strict tolerance = Normal true
     <-> JSON_stringify NumberToString a = JSON_stringify NumberToString b)
  /\ compare NumberToString TypeErrorMessage object_a_b object_a_b Strict None = Normal true
  /\ compare NumberToString TypeErrorMessage object_a_b object_b_a Strict None = Normal false
  /\ compare NumberToString TypeErrorMessage object_a_b object_b_a Deep None = Normal true
  /\ (forall pa pb tolerance,
        NoDup (map fst pa) -> NoDup (map fst pb) ->
        (compare NumberToString TypeErrorMessage (VObj pa) (VObj pb) Deep tolerance
         = Normal true
         <-> (forall k, In k (map fst pa) <-> In k (map fst pb))
             /\ (forall k, In k (map fst pa) ->
                   compare NumberToString TypeErrorMessage
                     (get (VObj pa) k) (get (VObj pb) k) Deep tolerance
                   = Normal true)))
  /\ (forall pa pb t,
        NoDup (map fst pa) -> NoDup (map fst pb) ->
        (compare NumberToString TypeErrorMessage (VObj pa) (VObj pb) Approx
           (Some (TolNumber t)) = Normal true
         <-> (forall k, In k (map fst pa) <-> In k (map fst pb))
             /\ (forall k, In k (map fst pa) ->
                   compare NumberToString TypeErrorMessage
                     (get (VObj pa) k) (get (VObj pb) k) Approx (Some (TolNumber t))
                   = Normal true)))
  /\ (forall a a' b b' mode tolerance,
        mode <> Strict ->
        same_up_to_key_order a a' -> same_up_to_key_order b b' ->
        compare NumberToString TypeErrorMessage a' b' mode tolerance
        = compare NumberToString TypeErrorMessage a b mode tolerance).
Proof.
  assert (N : forall x : bool, Normal x = Normal true <-> x = true).
  { intros x. split; [now intros [= ->]|now intros ->]. }
  split; [|split; [|split; [|split; [|split; [|split]]]]].
  - intros a b tolerance. cbn [compare].
    destruct (JSON_stringify NumberToString a) as [s|],
             (JSON_stringify NumberToString b) as [s'|];
      split; try discriminate; try reflexivity.
    + intros [= E]. apply String.eqb_eq in E. now subst.
    + intros [= ->]. now rewrite String.eqb_refl.
  - cbn [compare]. destruct (JSON_stringify NumberToString object_a_b);
      [now rewrite String.eqb_refl|reflexivity].
  - vm_compute. reflexivity.
  - vm_compute. reflexivity.
  - intros pa pb tolerance Ha Hb. cbn [compare]. rewrite N, (deepEqual_objects pa pb Ha Hb).
    split; intros [Hk Hv]; (split; [exact Hk|]); intros k Hin; apply N, Hv, Hin.
  - intros pa pb t Ha Hb. cbn [compare]. rewrite N.
    rewrite (approxEqual_unfold (VObj pa) (VObj pb)). cbn [approxEqual_body].
    rewrite (approxEqualWithAbsTolerance_objects (VObj pa) (VObj pb)) by reflexivity.
    cbn [Object_keys]. rewrite andb_true_iff, negb_true_iff, keys_differ_false.
    rewrite (sorted_keys_agree _ _ Ha Hb), every_true.
    split; intros [Hk Hv]; (split; [exact Hk|]); intros k Hin.
    + apply N. rewrite approxEqual_unfold. cbn [approxEqual_body]. apply Hv.
      apply (Permutation_in _ (sort_perm _)). exact Hin.
    + apply (Permutation_in _ (Permutation_sym (sort_perm _))) in Hin.
      specialize (Hv k Hin). apply N in Hv.
      rewrite approxEqual_unfold in Hv. exact Hv.
  - intros a a' b b' mode tolerance Hm Ha Hb.
    destruct mode; [contradiction|cbn [compare]..].
    + now rewrite (deepEqual_same a a' b b' Ha Hb).
    + destruct tolerance as [t|]; [|reflexivity].
      now rewrite (approxEqual_same a a' b b' t Ha Hb).
Qed.

End StrictMode.

Lemma strict_alone_depends_on_key_order_witness :
  same_up_to_key_order nested_p_q nested_q_p
  /\ compare integer_text engine_type_error nested_q_p nested_q_p Deep None
     = compare integer_text engine_type_error nested_p_q nested_p_q Deep None
  /\ compare integer_text engine_type_error nested_p_q nested_q_p Strict None
     = Normal false.
Proof.
  split; [exact nested_reordering|]. split; [|vm_compute; reflexivity].
  apply (proj2 (proj2 (proj2 (proj2 (proj2 (proj2
           (strict_alone_depends_on_key_order integer_text engine_type_error))))))
           nested_p_q nested_q_p nested_p_q nested_q_p Deep None).
  - discriminate.
  - exact nested_reordering.
  - exact nested_reordering.
Defined.

(** [{toString: 1}] against [{toString: 100}] under [{abs: 0.5, fields: {}}]:
    the tolerance of the field is the member of [Object.prototype] that
    [fields] inherits, which bounds nothing. *)
Example inherited_member_as_tolerance :
  approxEqual (VObj [("toString", VNum 1)]) (VObj [("toString", VNum 100)])
    (TolObject (Some 0.5%float) None (Some [])) = true
  /\ approxEqual (VObj [("x", VNum 1)]) (VObj [("x", VNum 100)])
       (TolObject (Some 0.5%float) None (Some [])) = false.
Proof. split; vm_compute; reflexivity. Qed.

(** An object with a [toString] of its own as the message of a thrown
    object: the message has no text. *)
Example message_without_text :
  exception_text integer_text engine_type_error
    (ThrownValue (VObj [("message", VObj [("toString", VNull)])]))
  = Throw (TypeError engine_type_error).
Proof. reflexivity. Qed.
